(** * Educational Initiatives design-pattern demos: a shallow embedding

    Two Python scripts are modelled:
    - [KananGadhia2.py]: the meeting-room office (Observer, Singleton and
      Command patterns), in [Module Office];
    - [KananGadhia.py]: the sorting strategies (Strategy pattern), in
      [Module Strategy], and the other pattern demos in the modules that
      follow.

    Python objects live in a store and are referred to by location, so that
    a [Room] fetched from the registry, held by a command and mutated by a
    method is one shared object.  Python integers are unbounded: [Z].
    Everything printed is appended, line by line, to [stdout].  Where a
    method calls itself or another object's method of the same name to a
    depth that grows with its input ([quick_sort], [get_description]), the
    interpreter's bounded call stack is part of the model. *)

From stdpp Require Import base option list list_numbers sorting gmap strings pretty.

Local Open Scope Z_scope.

(** ** Python built-ins used by both scripts *)

Module Py.

(** [range(start, stop)] and [range(stop)]. *)
Definition range2 (start stop : Z) : list Z := seqZ start (stop - start).
Definition range (stop : Z) : list Z := range2 0 stop.

(** Position addressed by the subscript [i] of a sequence of length [n]:
    negative subscripts count from the end, anything else out of range
    raises [IndexError] (here [None]). *)
Definition index (n i : Z) : option nat :=
  if decide (0 ≤ i < n) then Some (Z.to_nat i)
  else if decide (- n ≤ i < 0) then Some (Z.to_nat (n + i))
  else None.

(** [len(l)] *)
Definition len {A} (l : list A) : Z := Z.of_nat (length l).

(** [l[i]] *)
Definition getitem {A} (l : list A) (i : Z) : option A :=
  k ← index (len l) i; l !! k.

(** [l[i] = v] *)
Definition setitem {A} (l : list A) (i : Z) (v : A) : option (list A) :=
  k ← index (len l) i; Some (<[k := v]> l).

(** [str(n)] for an integer, as an f-string renders it. *)
Definition str (n : Z) : string := pretty n.

End Py.

(** ** Exceptions and the call stack *)

(** The exceptions that the modelled calls can raise. *)
Inductive exception := IndexError | TypeError | AttributeError | RecursionError.

(** How a call ends: it returns a value or raises an exception. *)
Inductive result (A : Type) :=
| Returns (a : A)
| Raises (e : exception).
Arguments Returns {A} a.
Arguments Raises {A} e.

#[global] Instance result_ret : MRet result := λ A, Returns.
#[global] Instance result_bind : MBind result := λ A B k m,
  match m with
  | Returns a => k a
  | Raises e => Raises e
  end.

(** A step that can only fail with the exception [e]. *)
Definition or_raise {A} (e : exception) (o : option A) : result A :=
  match o with
  | Some a => Returns a
  | None => Raises e
  end.

(** The interpreter's stack is bounded ([sys.getrecursionlimit()], 1000 by
    default).  A call of a function or method written in the scripts takes
    one frame for as long as it runs; [depth] is the number of frames still
    free when a call is made, and with none free the call raises
    [RecursionError] before its body starts.  Built-in functions ([len],
    [range], [print]) are taken to need no frame. *)
Definition call {A} (depth : nat) (body : nat → result A) : result A :=
  match depth with
  | O => Raises RecursionError
  | S depth' => body depth'
  end.

(** ** KananGadhia2.py: rooms, the office manager and booking commands *)

Module Office.

Abbreviation loc := nat.

(** The two concrete observer classes; their instances carry no state.
    The base class [Observer], whose [update] does nothing, is never
    instantiated. *)
Inductive Observer := AC | Lights.

Record Room := mkRoom {
  room_number : Z;
  occupied : bool;
  max_capacity : Z;
  observers : list Observer
}.

Record OfficeManager := mkOfficeManager {
  rooms : list loc
}.

(** The interpreter state the script can observe: the [Room] objects, the
    [OfficeManager] objects, the class attribute [OfficeManager._instance]
    and the lines printed so far. *)
Record World := mkWorld {
  room_heap : gmap loc Room;
  manager_heap : gmap loc OfficeManager;
  _instance : option loc;
  stdout : list string
}.

Definition empty_world : World := mkWorld ∅ ∅ None [].

(** *** A state monad with failure

    [None] stands for a raised exception ([AttributeError] on a reference
    that is not an object of the expected class, [IndexError]). *)

Definition M (A : Type) : Type := World → option (A * World).

#[global] Instance M_ret : MRet M := λ A a w, Some (a, w).
#[global] Instance M_bind : MBind M := λ A B k m w,
  match m w with
  | Some (a, w') => k a w'
  | None => None
  end.

Definition lift {A} (o : option A) : M A := λ w,
  match o with Some a => Some (a, w) | None => None end.

Definition print (line : string) : M unit := λ w,
  Some (tt, mkWorld (room_heap w) (manager_heap w) (_instance w) (stdout w ++ [line])).

Definition load_room (self : loc) : M Room := λ w,
  match room_heap w !! self with Some r => Some (r, w) | None => None end.

Definition store_room (self : loc) (r : Room) : M unit := λ w,
  Some (tt, mkWorld (<[self := r]> (room_heap w)) (manager_heap w) (_instance w) (stdout w)).

Definition load_manager (self : loc) : M OfficeManager := λ w,
  match manager_heap w !! self with Some m => Some (m, w) | None => None end.

Definition store_manager (self : loc) (m : OfficeManager) : M unit := λ w,
  Some (tt, mkWorld (room_heap w) (<[self := m]> (manager_heap w)) (_instance w) (stdout w)).

(** [for x in xs: body(x)] *)
Fixpoint for_each {A} (xs : list A) (body : A → M unit) : M unit :=
  match xs with
  | [] => mret tt
  | x :: xs' => body x ;; for_each xs' body
  end.

(** *** Observers *)

Definition AC_update (is_occupied : bool) : M unit :=
  if is_occupied then print "AC turned on." else print "AC turned off.".

Definition Lights_update (is_occupied : bool) : M unit :=
  if is_occupied then print "Lights turned on." else print "Lights turned off.".

(** Dynamic dispatch of [observer.update(is_occupied)]. *)
Definition Observer_update (observer : Observer) (is_occupied : bool) : M unit :=
  match observer with
  | AC => AC_update is_occupied
  | Lights => Lights_update is_occupied
  end.

(** *** Room *)

(** [Room(room_number)]: a new object, distinct from every existing one. *)
Definition Room_new (room_number : Z) : M loc := λ w,
  let self := fresh (dom (room_heap w)) in
  store_room self (mkRoom room_number false 0 [AC; Lights]) w ≫= λ '(_, w'), Some (self, w').

(** [self.occupied = b] *)
Definition set_occupied (self : loc) (b : bool) : M unit :=
  r ← load_room self;
  store_room self (mkRoom (room_number r) b (max_capacity r) (observers r)).

(** [self.max_capacity = n] *)
Definition set_max_capacity (self : loc) (n : Z) : M unit :=
  r ← load_room self;
  store_room self (mkRoom (room_number r) (occupied r) n (observers r)).

Definition Room_set_max_capacity (self : loc) (max_capacity : Z) : M unit :=
  if max_capacity >? 0 then
    set_max_capacity self max_capacity ;;
    r ← load_room self;
    print ("Room " +:+ Py.str (room_number r) +:+ " maximum capacity set to "
             +:+ Py.str max_capacity +:+ ".")
  else
    print "Invalid capacity. Please enter a valid positive number.".

Definition Room_get_room_number (self : loc) : M Z :=
  r ← load_room self; mret (room_number r).

Definition Room_is_occupied (self : loc) : M bool :=
  r ← load_room self; mret (occupied r).

Definition Room_notify_observers (self : loc) : M unit :=
  r ← load_room self;
  for_each (observers r) (λ observer,
    b ← Room_is_occupied self; Observer_update observer b).

Definition Room_add_occupants (self : loc) (count : Z) : M unit :=
  (if count >=? 2 then
     set_occupied self true ;;
     r ← load_room self;
     print ("Room " +:+ Py.str (room_number r) +:+ " is now occupied by "
              +:+ Py.str count +:+ " persons.")
   else
     set_occupied self false ;;
     r ← load_room self;
     print ("Room " +:+ Py.str (room_number r)
              +:+ " occupancy insufficient to mark as occupied.")) ;;
  Room_notify_observers self.

Definition Room_release_occupants (self : loc) : M unit :=
  set_occupied self false ;;
  r ← load_room self;
  print ("Room " +:+ Py.str (room_number r) +:+ " is now unoccupied.") ;;
  Room_notify_observers self.

(** *** OfficeManager (singleton) *)

(** [OfficeManager()]: [__new__] creates the instance and its empty room
    list on the first request only; [object.__init__] then does nothing. *)
Definition OfficeManager_new : M loc := λ w,
  match _instance w with
  | None =>
      let self := fresh (dom (manager_heap w)) in
      Some (self, mkWorld (room_heap w)
                          (<[self := mkOfficeManager []]> (manager_heap w))
                          (Some self) (stdout w))
  | Some self => Some (self, w)
  end.

(** [self.rooms.append(room)] *)
Definition rooms_append (self : loc) (room : loc) : M unit :=
  m ← load_manager self;
  store_manager self (mkOfficeManager (rooms m ++ [room])).

Definition OfficeManager_configure_rooms (self : loc) (count : Z) : M unit :=
  for_each (Py.range2 1 (count + 1)) (λ i,
    room ← Room_new i; rooms_append self room) ;;
  print ("Office configured with " +:+ Py.str count +:+ " meeting rooms.").

(** The result is [Some room] for a returned [Room], [None] for Python's
    [None]. *)
Definition OfficeManager_get_room (self : loc) (room_number : Z) : M (option loc) :=
  m ← load_manager self;
  if (0 <? room_number) && (room_number <=? Py.len (rooms m)) then
    room ← lift (Py.getitem (rooms m) (room_number - 1));
    mret (Some room)
  else
    print "Invalid room number." ;;
    mret None.

(** *** Commands *)

Record BookRoomCommand := mkBookRoomCommand {
  book_room : loc;
  start_time : string;
  duration : Z
}.

Definition BookRoomCommand_execute (self : BookRoomCommand) : M unit :=
  busy ← Room_is_occupied (book_room self);
  if negb busy then
    n ← Room_get_room_number (book_room self);
    print ("Room " +:+ Py.str n +:+ " booked from " +:+ start_time self
             +:+ " for " +:+ Py.str (duration self) +:+ " minutes.") ;;
    Room_add_occupants (book_room self) 2
  else
    n ← Room_get_room_number (book_room self);
    print ("Room " +:+ Py.str n +:+ " is already booked.").

Record CancelBookingCommand := mkCancelBookingCommand {
  cancel_room : loc
}.

Definition CancelBookingCommand_execute (self : CancelBookingCommand) : M unit :=
  busy ← Room_is_occupied (cancel_room self);
  if (busy : bool) then
    Room_release_occupants (cancel_room self) ;;
    n ← Room_get_room_number (cancel_room self);
    print ("Booking for Room " +:+ Py.str n +:+ " cancelled successfully.")
  else
    n ← Room_get_room_number (cancel_room self);
    print ("Room " +:+ Py.str n +:+ " is not booked.").

(** The script's [__main__] block, kept as an executable scenario. *)
Definition main : M unit :=
  office_manager ← OfficeManager_new;
  OfficeManager_configure_rooms office_manager 3 ;;
  got1 ← OfficeManager_get_room office_manager 1;
  got2 ← OfficeManager_get_room office_manager 2;
  room1 ← lift got1;
  room2 ← lift got2;
  Room_set_max_capacity room1 10 ;;
  Room_set_max_capacity room2 8 ;;
  let book_room1 := mkBookRoomCommand room1 "09:00" 60 in
  BookRoomCommand_execute book_room1 ;;
  let cancel_room1 := mkCancelBookingCommand room1 in
  CancelBookingCommand_execute cancel_room1 ;;
  BookRoomCommand_execute book_room1 ;;
  let book_room2 := mkBookRoomCommand room2 "09:00" 60 in
  let cancel_room2 := mkCancelBookingCommand room2 in
  CancelBookingCommand_execute cancel_room2 ;;
  Room_add_occupants room1 0 ;;
  Room_add_occupants room1 3.

(** *** Vocabulary of the statements

    State setters, the lines the methods print, sample states and the
    calls a client can make: what the theorems below are phrased in. *)

Definition set_stdout (out : list string) (w : World) : World :=
  mkWorld (room_heap w) (manager_heap w) (_instance w) out.

Definition set_room (self : loc) (r : Room) (w : World) : World :=
  mkWorld (<[self := r]> (room_heap w)) (manager_heap w) (_instance w) (stdout w).

Definition with_occupied (b : bool) (r : Room) : Room :=
  mkRoom (room_number r) b (max_capacity r) (observers r).

(** The line a sensor prints when told the occupancy [b]. *)
Definition update_line (observer : Observer) (b : bool) : string :=
  match observer, b with
  | AC, true => "AC turned on."
  | AC, false => "AC turned off."
  | Lights, true => "Lights turned on."
  | Lights, false => "Lights turned off."
  end.

(** The line [add_occupants] prints before it notifies. *)
Definition add_occupants_line (r : Room) (count : Z) : string :=
  if count >=? 2 then
    "Room " +:+ Py.str (room_number r) +:+ " is now occupied by "
      +:+ Py.str count +:+ " persons."
  else
    "Room " +:+ Py.str (room_number r)
      +:+ " occupancy insufficient to mark as occupied.".

Definition release_occupants_line (r : Room) : string :=
  "Room " +:+ Py.str (room_number r) +:+ " is now unoccupied.".

(** A world holding one occupied room of capacity 10, at location 0. *)
Definition busy_room : Room := mkRoom 1 true 10 [AC; Lights].
Definition busy_world : World := mkWorld {[ 0%nat := busy_room ]} ∅ None [].

(** A world holding one free room, at location 0. *)
Definition free_room : Room := mkRoom 1 false 0 [AC; Lights].
Definition free_world : World := mkWorld {[ 0%nat := free_room ]} ∅ None [].

Definition capacity_set_line (r : Room) (n : Z) : string :=
  "Room " +:+ Py.str (room_number r) +:+ " maximum capacity set to "
    +:+ Py.str n +:+ ".".

Definition invalid_capacity_line : string :=
  "Invalid capacity. Please enter a valid positive number.".

Definition booked_line (r : Room) (self : BookRoomCommand) : string :=
  "Room " +:+ Py.str (room_number r) +:+ " booked from " +:+ start_time self
    +:+ " for " +:+ Py.str (duration self) +:+ " minutes.".

Definition already_booked_line (r : Room) : string :=
  "Room " +:+ Py.str (room_number r) +:+ " is already booked.".

Definition cancelled_line (r : Room) : string :=
  "Booking for Room " +:+ Py.str (room_number r) +:+ " cancelled successfully.".

Definition not_booked_line (r : Room) : string :=
  "Room " +:+ Py.str (room_number r) +:+ " is not booked.".

Definition invalid_room_line : string := "Invalid room number.".

(** The office of the demo: three free rooms at locations 0, 1, 2, owned
    by the manager at location 0. *)
Definition office3 : World :=
  mkWorld (<[2%nat := mkRoom 3 false 0 [AC; Lights]]>
            (<[1%nat := mkRoom 2 false 0 [AC; Lights]]>
              {[ 0%nat := mkRoom 1 false 0 [AC; Lights] ]}))
          {[ 0%nat := mkOfficeManager [0%nat; 1%nat; 2%nat] ]}
          (Some 0%nat) [].

(** The room numbers of the manager's rooms, in list order. *)
Definition registry_numbers (w : World) (self : loc) : option (list Z) :=
  m ← manager_heap w !! self;
  mapM (λ room, room_number <$> room_heap w !! room) (rooms m).

Definition configured_line (count : Z) : string :=
  "Office configured with " +:+ Py.str count +:+ " meeting rooms.".

(** [OfficeManager()]; [configure_rooms(2)]; [configure_rooms(2)] from the
    initial state, returning the manager. *)
Definition configure_twice : M loc :=
  office_manager ← OfficeManager_new;
  OfficeManager_configure_rooms office_manager 2 ;;
  OfficeManager_configure_rooms office_manager 2 ;;
  mret office_manager.

(** The number of the room that [get_room(3)] returns after that. *)
Definition third_room_number : M Z :=
  office_manager ← configure_twice;
  got ← OfficeManager_get_room office_manager 3;
  room ← lift got;
  Room_get_room_number room.

(** Everything a caller can do with the classes of the script. *)
Inductive Call :=
| CallOfficeManager
| CallConfigureRooms (self : loc) (count : Z)
| CallGetRoom (self : loc) (room_number : Z)
| CallRoom (room_number : Z)
| CallSetMaxCapacity (room : loc) (max_capacity : Z)
| CallGetRoomNumber (room : loc)
| CallAddOccupants (room : loc) (count : Z)
| CallReleaseOccupants (room : loc)
| CallNotifyObservers (room : loc)
| CallIsOccupied (room : loc)
| CallBook (command : BookRoomCommand)
| CallCancel (command : CancelBookingCommand).

(** Performs a call and drops its result. *)
Definition perform (c : Call) : M unit :=
  match c with
  | CallOfficeManager => OfficeManager_new ;; mret tt
  | CallConfigureRooms self count => OfficeManager_configure_rooms self count
  | CallGetRoom self k => OfficeManager_get_room self k ;; mret tt
  | CallRoom n => Room_new n ;; mret tt
  | CallSetMaxCapacity room n => Room_set_max_capacity room n
  | CallGetRoomNumber room => Room_get_room_number room ;; mret tt
  | CallAddOccupants room count => Room_add_occupants room count
  | CallReleaseOccupants room => Room_release_occupants room
  | CallNotifyObservers room => Room_notify_observers room
  | CallIsOccupied room => Room_is_occupied room ;; mret tt
  | CallBook command => BookRoomCommand_execute command
  | CallCancel command => CancelBookingCommand_execute command
  end.

(** A computation that never assigns [OfficeManager._instance]. *)
Definition keeps_instance {A} (m : M A) : Prop :=
  ∀ w a w', m w = Some (a, w') → _instance w' = _instance w.

(** The state right after the first [OfficeManager()] of a process. *)
Definition office0 : World :=
  mkWorld ∅ {[ 0%nat := mkOfficeManager [] ]} (Some 0%nat) [].

Definition demo_calls : list Call :=
  [ CallConfigureRooms 0%nat 3;
    CallGetRoom 0%nat 1;
    CallBook (mkBookRoomCommand 0%nat "09:00" 60);
    CallOfficeManager;
    CallConfigureRooms 0%nat 1 ].

Definition world_after (m : M unit) (w : World) : World :=
  match m w with Some (_, w') => w' | None => w end.

(** *** The demo, run *)

(** What the script prints when run. *)
Example main_stdout :
  (λ '(_, w), stdout w) <$> main empty_world
  = Some [ "Office configured with 3 meeting rooms.";
           "Room 1 maximum capacity set to 10.";
           "Room 2 maximum capacity set to 8.";
           "Room 1 booked from 09:00 for 60 minutes.";
           "Room 1 is now occupied by 2 persons.";
           "AC turned on."; "Lights turned on.";
           "Room 1 is now unoccupied.";
           "AC turned off."; "Lights turned off.";
           "Booking for Room 1 cancelled successfully.";
           "Room 1 booked from 09:00 for 60 minutes.";
           "Room 1 is now occupied by 2 persons.";
           "AC turned on."; "Lights turned on.";
           "Room 2 is not booked.";
           "Room 1 occupancy insufficient to mark as occupied.";
           "AC turned off."; "Lights turned off.";
           "Room 1 is now occupied by 3 persons.";
           "AC turned on."; "Lights turned on." ].
Proof. vm_compute. reflexivity. Qed.

(** *** Running the primitives *)

Lemma bind_run {A B} (m : M A) (k : A → M B) (w : World) :
  (m ≫= k) w = match m w with Some (a, w') => k a w' | None => None end.
Proof. reflexivity. Qed.

Lemma load_room_run w self r :
  room_heap w !! self = Some r → load_room self w = Some (r, w).
Proof. intros H. unfold load_room. by rewrite H. Qed.

(** A location chosen by [fresh] holds no room yet. *)
Lemma fresh_room_None (h : gmap loc Room) : h !! fresh (dom h) = None.
Proof. apply not_elem_of_dom, is_fresh. Qed.

Lemma set_occupied_run w self r b :
  room_heap w !! self = Some r →
  set_occupied self b w = Some (tt, set_room self (with_occupied b r) w).
Proof. intros H. unfold set_occupied. rewrite bind_run, (load_room_run _ _ _ H). reflexivity. Qed.

Lemma Room_is_occupied_run w self r :
  room_heap w !! self = Some r → Room_is_occupied self w = Some (occupied r, w).
Proof. intros H. unfold Room_is_occupied. rewrite bind_run, (load_room_run _ _ _ H). reflexivity. Qed.

Lemma Room_get_room_number_run w self r :
  room_heap w !! self = Some r → Room_get_room_number self w = Some (room_number r, w).
Proof. intros H. unfold Room_get_room_number. rewrite bind_run, (load_room_run _ _ _ H). reflexivity. Qed.

Lemma Observer_update_run observer b w :
  Observer_update observer b w = Some (tt, set_stdout (stdout w ++ [update_line observer b]) w).
Proof. by destruct observer, b. Qed.

(** The notification loop prints one line per registered sensor, in
    registration order, each with the occupancy stored in the room. *)
Lemma notify_loop_run self r obs : ∀ w,
  room_heap w !! self = Some r →
  for_each obs (λ observer, b ← Room_is_occupied self; Observer_update observer b) w
  = Some (tt, set_stdout (stdout w ++ ((λ o, update_line o (occupied r)) <$> obs)) w).
Proof.
  induction obs as [|o obs IH]; intros w H; simpl.
  - unfold set_stdout. rewrite app_nil_r. by destruct w.
  - rewrite bind_run, bind_run, (Room_is_occupied_run _ _ _ H), Observer_update_run.
    rewrite IH by done. unfold set_stdout; simpl. by rewrite <- app_assoc.
Qed.

Lemma Room_notify_observers_run w self r :
  room_heap w !! self = Some r →
  Room_notify_observers self w
  = Some (tt, set_stdout (stdout w ++ ((λ o, update_line o (occupied r)) <$> observers r)) w).
Proof.
  intros H. unfold Room_notify_observers.
  rewrite bind_run, (load_room_run _ _ _ H). by apply notify_loop_run.
Qed.

Lemma print_run line w : print line w = Some (tt, set_stdout (stdout w ++ [line]) w).
Proof. reflexivity. Qed.

Lemma store_room_run self r w : store_room self r w = Some (tt, set_room self r w).
Proof. reflexivity. Qed.

(** Finds the room stored at a location of a world built by the setters. *)
Ltac room_lookup :=
  simpl; first [ eassumption | apply lookup_insert_eq
               | rewrite lookup_insert_ne by done; eassumption ].

(** Runs a method body step by step on a world whose room is known. *)
Ltac mrun :=
  repeat first
    [ rewrite bind_run
    | rewrite print_run
    | rewrite store_room_run
    | erewrite load_room_run by room_lookup
    | erewrite set_occupied_run by room_lookup
    | erewrite Room_is_occupied_run by room_lookup
    | erewrite Room_get_room_number_run by room_lookup
    | erewrite Room_notify_observers_run by room_lookup
    | progress cbv beta iota ].

Lemma Room_add_occupants_run w self r count :
  room_heap w !! self = Some r →
  Room_add_occupants self count w
  = Some (tt, set_stdout (stdout w ++ add_occupants_line r count
                            :: ((λ o, update_line o (count >=? 2)) <$> observers r))
                (set_room self (with_occupied (count >=? 2) r) w)).
Proof.
  intros H. unfold Room_add_occupants, add_occupants_line.
  destruct (count >=? 2); mrun;
    unfold set_stdout, set_room; simpl; by rewrite <- app_assoc.
Qed.

Lemma Room_release_occupants_run w self r :
  room_heap w !! self = Some r →
  Room_release_occupants self w
  = Some (tt, set_stdout (stdout w ++ release_occupants_line r
                            :: ((λ o, update_line o false) <$> observers r))
                (set_room self (with_occupied false r) w)).
Proof.
  intros H. unfold Room_release_occupants, release_occupants_line. mrun.
  unfold set_stdout, set_room; simpl; by rewrite <- app_assoc.
Qed.

(** *** Room occupancy *)

(** C1. For every integer [count] and every prior state of the room,
    [add_occupants(count)] returns normally and afterwards [is_occupied()]
    is [count >= 2]; called with [count < 2] on an occupied room it leaves
    the room unoccupied. *)
Theorem add_occupants_is_occupied (w : World) (self : loc) (r : Room) (count : Z) :
  room_heap w !! self = Some r →
  ∃ w', Room_add_occupants self count w = Some (tt, w')
        ∧ Room_is_occupied self w' = Some (count >=? 2, w')
        ∧ (count < 2 → occupied r = true → Room_is_occupied self w' = Some (false, w')).
Proof.
  intros H. eexists. split; [by apply Room_add_occupants_run|].
  erewrite Room_is_occupied_run by room_lookup. simpl.
  split; [done|]. intros Hlt _.
  replace (count >=? 2) with false; [done|].
  rewrite Z.geb_leb. symmetry. apply Z.leb_gt. lia.
Qed.

Lemma add_occupants_is_occupied_witness :
  room_heap busy_world !! 0%nat = Some busy_room
  ∧ ∃ w', Room_add_occupants 0%nat 1 busy_world = Some (tt, w')
          ∧ Room_is_occupied 0%nat w' = Some (false, w').
Proof.
  split; [reflexivity|].
  destruct (add_occupants_is_occupied busy_world 0%nat busy_room 1)
    as (w' & Hrun & _ & Hfree); [reflexivity|].
  exists w'. split; [exact Hrun|]. apply Hfree; [lia|reflexivity].
Defined.

(** C9. [release_occupants()] returns normally from every prior state of
    the room and afterwards [is_occupied()] is false: the stored flag is
    overwritten with [False] whatever it was. *)
Theorem release_occupants_unoccupied (w : World) (self : loc) (r : Room) :
  room_heap w !! self = Some r →
  ∃ w', Room_release_occupants self w = Some (tt, w')
        ∧ Room_is_occupied self w' = Some (false, w')
        ∧ room_heap w' !! self = Some (with_occupied false r).
Proof.
  intros H. eexists. split; [by apply Room_release_occupants_run|].
  erewrite Room_is_occupied_run by room_lookup. split; [done|]. room_lookup.
Qed.

Lemma release_occupants_unoccupied_witness :
  room_heap busy_world !! 0%nat = Some busy_room
  ∧ ∃ w', Room_release_occupants 0%nat busy_world = Some (tt, w')
          ∧ Room_is_occupied 0%nat w' = Some (false, w')
          ∧ room_heap w' !! 0%nat = Some (with_occupied false busy_room).
Proof.
  split; [reflexivity|].
  apply (release_occupants_unoccupied busy_world 0%nat busy_room). reflexivity.
Defined.

(** *** Notification *)

(** [Room(n)] always succeeds and builds, at a location not in use, an
    unoccupied room of capacity 0 with the sensors [AC(), Lights()];
    the rooms that exist are not touched. *)
Lemma Room_new_run (w : World) (n : Z) :
  ∃ self w',
    Room_new n w = Some (self, w')
    ∧ room_heap w !! self = None
    ∧ room_heap w' !! self = Some (mkRoom n false 0 [AC; Lights])
    ∧ ∀ other r, room_heap w !! other = Some r → room_heap w' !! other = Some r.
Proof.
  eexists _, _. split; [reflexivity|]. split; [apply fresh_room_None|].
  split; [apply lookup_insert_eq|]. intros other r Hother. simpl.
  rewrite lookup_insert_ne; [done|]. intros <-.
  by rewrite fresh_room_None in Hother.
Qed.

(** C2. A room built by [Room.__init__] has the sensors [AC(), Lights()].
    On such a room every call of [add_occupants] and of
    [release_occupants] returns normally and, once the occupancy is stored
    and the status line printed (state [w1]), does exactly
    [AC.update(occupied)] and then [Lights.update(occupied)] with the
    occupancy just stored: the output gains, after the status line, one
    line of the AC followed by one line of the lights.  The sensor list is
    the same afterwards, so this holds for every later call too. *)
Theorem occupancy_change_notifies_once (w : World) (self : loc) (r : Room) :
  room_heap w !! self = Some r →
  observers r = [AC; Lights] →
  (∀ count, ∃ w1 w' r',
      Room_add_occupants self count w = Some (tt, w')
      ∧ r' = with_occupied (count >=? 2) r
      ∧ w1 = set_stdout (stdout w ++ [add_occupants_line r count]) (set_room self r' w)
      ∧ (Observer_update AC (occupied r') ;; Observer_update Lights (occupied r')) w1
        = Some (tt, w')
      ∧ room_heap w' !! self = Some r'
      ∧ observers r' = [AC; Lights]
      ∧ stdout w' = stdout w ++ [add_occupants_line r count;
                                  update_line AC (occupied r');
                                  update_line Lights (occupied r')])
  ∧ (∃ w1 w' r',
      Room_release_occupants self w = Some (tt, w')
      ∧ r' = with_occupied false r
      ∧ w1 = set_stdout (stdout w ++ [release_occupants_line r]) (set_room self r' w)
      ∧ (Observer_update AC (occupied r') ;; Observer_update Lights (occupied r')) w1
        = Some (tt, w')
      ∧ room_heap w' !! self = Some r'
      ∧ observers r' = [AC; Lights]
      ∧ stdout w' = stdout w ++ [release_occupants_line r;
                                  update_line AC (occupied r');
                                  update_line Lights (occupied r')]).
Proof.
  intros H Hobs. split; [intros count|].
  - eexists _, _, _. split; [by apply Room_add_occupants_run|].
    split; [reflexivity|]. split; [reflexivity|]. rewrite Hobs.
    split; [|split; [room_lookup|done]].
    rewrite bind_run, !Observer_update_run. simpl.
    unfold set_stdout. simpl. by rewrite <- !app_assoc.
  - eexists _, _, _. split; [by apply Room_release_occupants_run|].
    split; [reflexivity|]. split; [reflexivity|]. rewrite Hobs.
    split; [|split; [room_lookup|done]].
    rewrite bind_run, !Observer_update_run. simpl.
    unfold set_stdout. simpl. by rewrite <- !app_assoc.
Qed.

Lemma occupancy_change_notifies_once_witness :
  room_heap free_world !! 0%nat = Some free_room
  ∧ observers free_room = [AC; Lights]
  ∧ (∃ w' r',
      Room_add_occupants 0%nat 3 free_world = Some (tt, w')
      ∧ room_heap w' !! 0%nat = Some r'
      ∧ stdout w' = stdout free_world ++ [add_occupants_line free_room 3;
                                           update_line AC (occupied r');
                                           update_line Lights (occupied r')])
  ∧ (∃ w' r',
      Room_release_occupants 0%nat free_world = Some (tt, w')
      ∧ room_heap w' !! 0%nat = Some r'
      ∧ stdout w' = stdout free_world ++ [release_occupants_line free_room;
                                           update_line AC (occupied r');
                                           update_line Lights (occupied r')]).
Proof.
  split; [reflexivity|]. split; [reflexivity|].
  destruct (occupancy_change_notifies_once free_world 0%nat free_room)
    as [Hadd Hrelease]; [reflexivity..|].
  split.
  - destruct (Hadd 3) as (_ & w' & r' & Hrun & _ & _ & _ & Hroom & _ & Hout).
    by exists w', r'.
  - destruct Hrelease as (_ & w' & r' & Hrun & _ & _ & _ & Hroom & _ & Hout).
    by exists w', r'.
Defined.

(** *** Capacity *)

(** C7. [set_max_capacity(n)] returns normally for every integer [n].
    When [n > 0] the capacity becomes [n] and the confirmation is printed;
    when [n <= 0] the room object is left exactly as it was and the
    invalid-capacity warning is printed; so the capacity differs from
    before only if [n > 0].  In both cases the occupancy flag and the room
    number are those of before. *)
Theorem set_max_capacity_positive_only (w : World) (self : loc) (r : Room) (n : Z) :
  room_heap w !! self = Some r →
  ∃ w' r',
    Room_set_max_capacity self n w = Some (tt, w')
    ∧ room_heap w' !! self = Some r'
    ∧ occupied r' = occupied r
    ∧ room_number r' = room_number r
    ∧ (0 < n → max_capacity r' = n
               ∧ stdout w' = stdout w ++ [capacity_set_line r n])
    ∧ (n ≤ 0 → r' = r
               ∧ room_heap w' = room_heap w
               ∧ stdout w' = stdout w ++ [invalid_capacity_line])
    ∧ (max_capacity r' ≠ max_capacity r → 0 < n).
Proof.
  intros H. unfold Room_set_max_capacity, set_max_capacity.
  destruct (n >? 0) eqn:Hn.
  - apply Z.gtb_lt in Hn. mrun. eexists _, _. split; [reflexivity|].
    split; [room_lookup|]. simpl. repeat split; try done; lia.
  - rewrite Z.gtb_ltb in Hn. apply Z.ltb_ge in Hn.
    exists (set_stdout (stdout w ++ [invalid_capacity_line]) w), r.
    split; [reflexivity|]. split; [done|]. repeat split; try done; lia.
Qed.

Lemma set_max_capacity_positive_only_witness :
  room_heap busy_world !! 0%nat = Some busy_room
  ∧ (∃ w' r',
      Room_set_max_capacity 0%nat (-4) busy_world = Some (tt, w')
      ∧ room_heap w' !! 0%nat = Some r'
      ∧ r' = busy_room
      ∧ stdout w' = stdout busy_world ++ [invalid_capacity_line])
  ∧ (∃ w' r',
      Room_set_max_capacity 0%nat 12 busy_world = Some (tt, w')
      ∧ room_heap w' !! 0%nat = Some r'
      ∧ max_capacity r' = 12
      ∧ stdout w' = stdout busy_world ++ [capacity_set_line busy_room 12]).
Proof.
  split; [reflexivity|]. split.
  - destruct (set_max_capacity_positive_only busy_world 0%nat busy_room (-4))
      as (w' & r' & Hrun & Hroom & _ & _ & _ & Hbad & _); [reflexivity|].
    destruct Hbad as (Hsame & _ & Hout); [lia|]. by exists w', r'.
  - destruct (set_max_capacity_positive_only busy_world 0%nat busy_room 12)
      as (w' & r' & Hrun & Hroom & _ & _ & Hgood & _ & _); [reflexivity|].
    destruct Hgood as (Hcap & Hout); [lia|]. by exists w', r'.
Defined.

(** *** Booking commands *)

Lemma BookRoomCommand_execute_free w self r :
  room_heap w !! book_room self = Some r →
  occupied r = false →
  BookRoomCommand_execute self w
  = Room_add_occupants (book_room self) 2
      (set_stdout (stdout w ++ [booked_line r self]) w).
Proof.
  intros H Hfree. unfold BookRoomCommand_execute. mrun. rewrite Hfree. simpl. by mrun.
Qed.

Lemma BookRoomCommand_execute_busy w self r :
  room_heap w !! book_room self = Some r →
  occupied r = true →
  BookRoomCommand_execute self w
  = Some (tt, set_stdout (stdout w ++ [already_booked_line r]) w).
Proof.
  intros H Hbusy. unfold BookRoomCommand_execute. mrun. rewrite Hbusy. simpl. by mrun.
Qed.

(** C5. Executing a [BookRoomCommand] whose room is not occupied prints
    the booking line, which carries the command's start time and duration,
    and then is [add_occupants(2)] on its room: the room ends occupied.
    Executing it when the room is occupied only prints the
    already-booked line: no object changes.  Both hold in every state, so
    executing the same command a second time, right after a successful
    booking, reports the conflict and changes nothing. *)
Theorem book_room_execute (w : World) (self : BookRoomCommand) (r : Room) :
  room_heap w !! book_room self = Some r →
  (occupied r = false →
     ∃ w', BookRoomCommand_execute self w = Some (tt, w')
           ∧ Room_add_occupants (book_room self) 2
               (set_stdout (stdout w ++ [booked_line r self]) w) = Some (tt, w')
           ∧ Room_is_occupied (book_room self) w' = Some (true, w')
           ∧ BookRoomCommand_execute self w'
             = Some (tt, set_stdout (stdout w' ++ [already_booked_line r]) w'))
  ∧ (occupied r = true →
     BookRoomCommand_execute self w
     = Some (tt, set_stdout (stdout w ++ [already_booked_line r]) w)).
Proof.
  intros H. split; intros Hocc; [|by apply BookRoomCommand_execute_busy].
  rewrite (BookRoomCommand_execute_free _ _ _ H Hocc).
  erewrite Room_add_occupants_run by room_lookup.
  eexists. split; [reflexivity|]. split; [reflexivity|].
  split; [by mrun|].
  erewrite BookRoomCommand_execute_busy by first [room_lookup | reflexivity].
  reflexivity.
Qed.

Lemma book_room_execute_witness :
  room_heap free_world !! book_room (mkBookRoomCommand 0%nat "09:00" 60)
    = Some free_room
  ∧ occupied free_room = false
  ∧ ∃ w', BookRoomCommand_execute (mkBookRoomCommand 0%nat "09:00" 60) free_world
            = Some (tt, w')
          ∧ Room_add_occupants 0%nat 2
              (set_stdout (stdout free_world
                 ++ [booked_line free_room (mkBookRoomCommand 0%nat "09:00" 60)])
                 free_world) = Some (tt, w')
          ∧ Room_is_occupied 0%nat w' = Some (true, w')
          ∧ BookRoomCommand_execute (mkBookRoomCommand 0%nat "09:00" 60) w'
            = Some (tt, set_stdout (stdout w' ++ [already_booked_line free_room]) w').
Proof.
  split; [reflexivity|]. split; [reflexivity|].
  apply (book_room_execute free_world (mkBookRoomCommand 0%nat "09:00" 60) free_room);
    reflexivity.
Defined.

(** C6. Executing a [CancelBookingCommand] whose room is occupied is
    [release_occupants()] on its room followed by the success line: the
    room ends unoccupied.  Executing it when the room is not occupied only
    prints the not-booked line: no object changes. *)
Theorem cancel_booking_execute (w : World) (self : CancelBookingCommand) (r : Room) :
  room_heap w !! cancel_room self = Some r →
  (occupied r = true →
     ∃ w1 w', Room_release_occupants (cancel_room self) w = Some (tt, w1)
           ∧ w' = set_stdout (stdout w1 ++ [cancelled_line r]) w1
           ∧ CancelBookingCommand_execute self w = Some (tt, w')
           ∧ Room_is_occupied (cancel_room self) w' = Some (false, w'))
  ∧ (occupied r = false →
     CancelBookingCommand_execute self w
     = Some (tt, set_stdout (stdout w ++ [not_booked_line r]) w)).
Proof.
  intros H. unfold CancelBookingCommand_execute. split; intros Hocc.
  - erewrite Room_release_occupants_run by room_lookup.
    eexists _, _. split; [reflexivity|]. split; [reflexivity|].
    mrun. rewrite Hocc. mrun.
    erewrite Room_release_occupants_run by room_lookup. mrun.
    split; [reflexivity|]. by mrun.
  - mrun. rewrite Hocc. by mrun.
Qed.

Lemma cancel_booking_execute_witness :
  room_heap busy_world !! cancel_room (mkCancelBookingCommand 0%nat) = Some busy_room
  ∧ occupied busy_room = true
  ∧ ∃ w1 w', Room_release_occupants 0%nat busy_world = Some (tt, w1)
          ∧ w' = set_stdout (stdout w1 ++ [cancelled_line busy_room]) w1
          ∧ CancelBookingCommand_execute (mkCancelBookingCommand 0%nat) busy_world
            = Some (tt, w')
          ∧ Room_is_occupied 0%nat w' = Some (false, w').
Proof.
  split; [reflexivity|]. split; [reflexivity|].
  apply (cancel_booking_execute busy_world (mkCancelBookingCommand 0%nat) busy_room);
    reflexivity.
Defined.

(** *** The registry: lookup *)

Lemma load_manager_run w self m :
  manager_heap w !! self = Some m → load_manager self w = Some (m, w).
Proof. intros H. unfold load_manager. by rewrite H. Qed.

Lemma getitem_in_range {A} (l : list A) (i : Z) :
  0 ≤ i < Py.len l → Py.getitem l i = l !! Z.to_nat i.
Proof.
  intros Hi. unfold Py.getitem, Py.index. by rewrite decide_True.
Qed.

(** C4. [get_room(k)] returns normally for every integer [k].  When
    [1 <= k <= len(rooms)] it returns the room stored at position [k-1]
    of the list, that is the [k]-th one, and prints nothing; otherwise it
    prints the invalid-room-number line and returns [None].  Hence a room
    is returned exactly when [k] is in range, and in neither case does any
    object or the room list change. *)
Theorem get_room_iff_in_range (w : World) (self : loc) (m : OfficeManager) (k : Z) :
  manager_heap w !! self = Some m →
  (1 ≤ k ≤ Py.len (rooms m) →
     ∃ room, rooms m !! Z.to_nat (k - 1) = Some room
             ∧ OfficeManager_get_room self k w = Some (Some room, w))
  ∧ (¬ (1 ≤ k ≤ Py.len (rooms m)) →
     OfficeManager_get_room self k w
     = Some (None, set_stdout (stdout w ++ [invalid_room_line]) w))
  ∧ ((∃ room w', OfficeManager_get_room self k w = Some (Some room, w'))
     ↔ 1 ≤ k ≤ Py.len (rooms m)).
Proof.
  intros H.
  assert (1 ≤ k ≤ Py.len (rooms m) →
     ∃ room, rooms m !! Z.to_nat (k - 1) = Some room
             ∧ OfficeManager_get_room self k w = Some (Some room, w)) as Hin.
  { intros Hk. unfold OfficeManager_get_room.
    rewrite bind_run, (load_manager_run _ _ _ H). cbv beta iota.
    replace (0 <? k) with true by (symmetry; apply Z.ltb_lt; lia).
    replace (k <=? Py.len (rooms m)) with true by (symmetry; apply Z.leb_le; lia).
    destruct (lookup_lt_is_Some_2 (rooms m) (Z.to_nat (k - 1))) as [room Hroom].
    { unfold Py.len in Hk. lia. }
    exists room. split; [done|]. simpl.
    rewrite bind_run. unfold lift. rewrite getitem_in_range by lia. by rewrite Hroom. }
  assert (¬ (1 ≤ k ≤ Py.len (rooms m)) →
     OfficeManager_get_room self k w
     = Some (None, set_stdout (stdout w ++ [invalid_room_line]) w)) as Hout.
  { intros Hk. unfold OfficeManager_get_room.
    rewrite bind_run, (load_manager_run _ _ _ H). cbv beta iota.
    destruct (0 <? k) eqn:H0; [destruct (k <=? Py.len (rooms m)) eqn:H1|]; simpl; try done.
    apply Z.ltb_lt in H0. apply Z.leb_le in H1. lia. }
  split; [done|]. split; [done|]. split.
  - intros (room & w' & Hget). destruct (decide (1 ≤ k ≤ Py.len (rooms m))); [done|].
    rewrite Hout in Hget by done. discriminate.
  - intros Hk. destruct (Hin Hk) as (room & _ & Hget). eauto.
Qed.

Lemma get_room_iff_in_range_witness :
  manager_heap office3 !! 0%nat = Some (mkOfficeManager [0%nat; 1%nat; 2%nat])
  ∧ OfficeManager_get_room 0%nat 99 office3
    = Some (None, set_stdout (stdout office3 ++ [invalid_room_line]) office3)
  ∧ ∃ room, [0%nat; 1%nat; 2%nat] !! Z.to_nat (2 - 1) = Some room
            ∧ OfficeManager_get_room 0%nat 2 office3 = Some (Some room, office3).
Proof.
  split; [reflexivity|]. split.
  - apply (get_room_iff_in_range office3 0%nat (mkOfficeManager [0%nat; 1%nat; 2%nat]) 99);
      [reflexivity | vm_compute; intros [_ Hle]; by apply Hle].
  - apply (get_room_iff_in_range office3 0%nat (mkOfficeManager [0%nat; 1%nat; 2%nat]) 2);
      [reflexivity | vm_compute; split; discriminate].
Defined.

(** *** The registry: configuration *)

(** One pass of the loop body of [configure_rooms] per number, whatever
    the rooms already registered: each number is given to a new room that
    is appended to the list; nothing is printed and no existing room is
    touched. *)
Lemma configure_loop_run self numbers : ∀ w m old,
  manager_heap w !! self = Some m →
  registry_numbers w self = Some old →
  ∃ w' m',
    for_each numbers (λ i, room ← Room_new i; rooms_append self room) w = Some (tt, w')
    ∧ manager_heap w' !! self = Some m'
    ∧ registry_numbers w' self = Some (old ++ numbers)
    ∧ length (rooms m') = (length (rooms m) + length numbers)%nat
    ∧ _instance w' = _instance w
    ∧ stdout w' = stdout w.
Proof.
  induction numbers as [|i numbers IH]; intros w m old Hm Hold; simpl.
  - exists w, m. rewrite app_nil_r. repeat split; try done; lia.
  - set (room := fresh (dom (room_heap w))).
    set (w1 := mkWorld (<[room := mkRoom i false 0 [AC; Lights]]> (room_heap w))
                       (<[self := mkOfficeManager (rooms m ++ [room])]> (manager_heap w))
                       (_instance w) (stdout w)).
    assert (manager_heap w1 !! self = Some (mkOfficeManager (rooms m ++ [room]))) as Hm1
      by apply lookup_insert_eq.
    assert (registry_numbers w1 self = Some (old ++ [i])) as Hold1.
    { unfold registry_numbers in *. rewrite Hm1. rewrite Hm in Hold. simpl in *.
      apply mapM_Some in Hold. apply mapM_Some. apply Forall2_app.
      - eapply Forall2_impl; [exact Hold|]. intros l n Hl. simpl in *.
        destruct (room_heap w !! l) as [r|] eqn:Hr; [|done].
        rewrite lookup_insert_ne; [by rewrite Hr|].
        intros <-. unfold room in Hr. by rewrite fresh_room_None in Hr.
      - constructor; [|constructor]. simpl. by rewrite lookup_insert_eq. }
    destruct (IH w1 _ _ Hm1 Hold1) as (w' & m' & Hrun & Hm' & Hnum & Hlen & Hinst & Hout).
    exists w', m'. split.
    { rewrite bind_run, bind_run. unfold Room_new. simpl.
      unfold rooms_append. rewrite bind_run. unfold load_manager. simpl.
      rewrite Hm. exact Hrun. }
    split; [done|]. split; [by rewrite <- app_assoc in Hnum|].
    split; [|done]. rewrite Hlen. simpl. rewrite length_app. simpl. lia.
Qed.

(** What [configure_rooms(count)] does on a registry whose rooms carry the
    numbers [old]: it returns normally and the numbers become [old]
    followed by [1, ..., count] (nothing when [count <= 0]). *)
Lemma OfficeManager_configure_rooms_run w self m old count :
  manager_heap w !! self = Some m →
  registry_numbers w self = Some old →
  ∃ w' m',
    OfficeManager_configure_rooms self count w = Some (tt, w')
    ∧ manager_heap w' !! self = Some m'
    ∧ registry_numbers w' self = Some (old ++ seqZ 1 count)
    ∧ length (rooms m') = (length (rooms m) + Z.to_nat count)%nat
    ∧ _instance w' = _instance w
    ∧ stdout w' = stdout w ++ [configured_line count].
Proof.
  intros Hm Hold. unfold OfficeManager_configure_rooms, Py.range2.
  replace (count + 1 - 1) with count by lia.
  destruct (configure_loop_run self (seqZ 1 count) w m old Hm Hold)
    as (w1 & m' & Hrun & Hm' & Hnum & Hlen & Hinst & Hout).
  exists (set_stdout (stdout w1 ++ [configured_line count]) w1), m'.
  rewrite bind_run, Hrun. split; [done|]. split; [done|].
  split; [done|]. split; [by rewrite Hlen, length_seqZ|].
  split; [done|]. simpl. by rewrite Hout.
Qed.

(** C3 (the code departs from the claim). After [configure_rooms(2)] twice
    the registry holds four rooms numbered 1, 2, 1, 2: the second call
    numbers its rooms from 1 again, not from [len(existing)+1 = 3], and
    [get_room(3)] returns a room that calls itself room 1. *)
Theorem configure_rooms_twice_renumbers :
  (configure_twice empty_world ≫= λ '(office_manager, w),
     registry_numbers w office_manager) = Some [1; 2; 1; 2]
  ∧ fst <$> third_room_number empty_world = Some 1.
Proof. split; vm_compute; reflexivity. Qed.

(** *** The singleton *)

Create HintDb keeps discriminated.

Lemma keeps_ret {A} (a : A) : keeps_instance (mret a).
Proof. by intros w a' w' [= _ <-]. Qed.

Lemma keeps_bind {A B} (m : M A) (k : A → M B) :
  keeps_instance m → (∀ a, keeps_instance (k a)) → keeps_instance (m ≫= k).
Proof.
  intros Hm Hk w b w' Hrun. rewrite bind_run in Hrun.
  destruct (m w) as [[a w1]|] eqn:Hmw; [|done].
  rewrite (Hk _ _ _ _ Hrun). eauto.
Qed.

Lemma keeps_lift {A} (o : option A) : keeps_instance (lift o).
Proof. intros w a w'. unfold lift. destruct o; [by intros [= _ <-]|done]. Qed.

Lemma keeps_print line : keeps_instance (print line).
Proof. by intros w a w' [= _ <-]. Qed.

Lemma keeps_load_room self : keeps_instance (load_room self).
Proof. intros w a w'. unfold load_room. destruct (_ !! _); [by intros [= _ <-]|done]. Qed.

Lemma keeps_store_room self r : keeps_instance (store_room self r).
Proof. by intros w a w' [= _ <-]. Qed.

Lemma keeps_load_manager self : keeps_instance (load_manager self).
Proof. intros w a w'. unfold load_manager. destruct (_ !! _); [by intros [= _ <-]|done]. Qed.

Lemma keeps_store_manager self m : keeps_instance (store_manager self m).
Proof. by intros w a w' [= _ <-]. Qed.

Lemma keeps_Room_new n : keeps_instance (Room_new n).
Proof. by intros w a w' [= _ <-]. Qed.

Lemma keeps_for_each {A} (xs : list A) (body : A → M unit) :
  (∀ x, keeps_instance (body x)) → keeps_instance (for_each xs body).
Proof.
  intros Hbody. induction xs as [|x xs IH]; simpl.
  - apply keeps_ret.
  - apply keeps_bind; [apply Hbody | by intros _].
Qed.

Lemma keeps_if {A} (b : bool) (m1 m2 : M A) :
  keeps_instance m1 → keeps_instance m2 → keeps_instance (if b then m1 else m2).
Proof. by destruct b. Qed.

#[local] Hint Resolve keeps_ret keeps_bind keeps_lift keeps_print keeps_load_room
  keeps_store_room keeps_load_manager keeps_store_manager keeps_Room_new
  keeps_for_each keeps_if : keeps.

Lemma keeps_Observer_update o b : keeps_instance (Observer_update o b).
Proof. destruct o, b; apply keeps_print. Qed.

Lemma keeps_set_occupied self b : keeps_instance (set_occupied self b).
Proof. unfold set_occupied. auto with keeps. Qed.

Lemma keeps_Room_is_occupied self : keeps_instance (Room_is_occupied self).
Proof. unfold Room_is_occupied. auto with keeps. Qed.

Lemma keeps_Room_get_room_number self : keeps_instance (Room_get_room_number self).
Proof. unfold Room_get_room_number. auto with keeps. Qed.

#[local] Hint Resolve keeps_Observer_update keeps_set_occupied
  keeps_Room_is_occupied keeps_Room_get_room_number : keeps.

Lemma keeps_Room_notify_observers self : keeps_instance (Room_notify_observers self).
Proof. unfold Room_notify_observers. auto 10 with keeps. Qed.

#[local] Hint Resolve keeps_Room_notify_observers : keeps.

Lemma keeps_Room_set_max_capacity self n : keeps_instance (Room_set_max_capacity self n).
Proof. unfold Room_set_max_capacity, set_max_capacity. auto 10 with keeps. Qed.

Lemma keeps_Room_add_occupants self count : keeps_instance (Room_add_occupants self count).
Proof. unfold Room_add_occupants. auto 10 with keeps. Qed.

Lemma keeps_Room_release_occupants self : keeps_instance (Room_release_occupants self).
Proof. unfold Room_release_occupants. auto 10 with keeps. Qed.

#[local] Hint Resolve keeps_Room_set_max_capacity keeps_Room_add_occupants
  keeps_Room_release_occupants : keeps.

Lemma keeps_configure_rooms self count :
  keeps_instance (OfficeManager_configure_rooms self count).
Proof. unfold OfficeManager_configure_rooms, rooms_append. auto 10 with keeps. Qed.

Lemma keeps_get_room self k : keeps_instance (OfficeManager_get_room self k).
Proof. unfold OfficeManager_get_room. auto 10 with keeps. Qed.

Lemma keeps_Book_execute command : keeps_instance (BookRoomCommand_execute command).
Proof. unfold BookRoomCommand_execute. auto 10 with keeps. Qed.

Lemma keeps_Cancel_execute command : keeps_instance (CancelBookingCommand_execute command).
Proof. unfold CancelBookingCommand_execute. auto 10 with keeps. Qed.

(** Once the instance exists, a further [OfficeManager()] returns it and
    changes nothing. *)
Lemma OfficeManager_new_again w self :
  _instance w = Some self → OfficeManager_new w = Some (self, w).
Proof. intros H. unfold OfficeManager_new. by rewrite H. Qed.

(** The first [OfficeManager()] always succeeds and records what it
    returns. *)
Lemma OfficeManager_new_instance w self w' :
  OfficeManager_new w = Some (self, w') → _instance w' = Some self.
Proof.
  unfold OfficeManager_new. destruct (_instance w) eqn:H.
  - by intros [= <- <-].
  - by intros [= <- <-].
Qed.

Lemma OfficeManager_new_total w : ∃ self w', OfficeManager_new w = Some (self, w').
Proof. unfold OfficeManager_new. destruct (_instance w); eauto. Qed.

(** No call ever replaces an existing instance. *)
Lemma perform_instance c w self w' :
  _instance w = Some self → perform c w = Some (tt, w') → _instance w' = Some self.
Proof.
  intros Hinst Hrun.
  destruct c; simpl in Hrun;
    try (rewrite <- Hinst; revert Hrun;
         first [ apply keeps_configure_rooms | apply keeps_Room_set_max_capacity
               | apply keeps_Room_add_occupants | apply keeps_Room_release_occupants
               | apply keeps_Room_notify_observers | apply keeps_Book_execute
               | apply keeps_Cancel_execute
               | apply (keeps_bind _ (λ _, mret tt));
                 [ first [ apply keeps_get_room | apply keeps_Room_new
                         | apply keeps_Room_get_room_number | apply keeps_Room_is_occupied ]
                 | intros ?; apply keeps_ret ] ]).
  rewrite bind_run, (OfficeManager_new_again _ _ Hinst) in Hrun. by injection Hrun as <-.
Qed.

Lemma perform_all_instance calls : ∀ w self w',
  _instance w = Some self → for_each calls perform w = Some (tt, w') →
  _instance w' = Some self.
Proof.
  induction calls as [|c calls IH]; intros w self w' Hinst; simpl.
  - by intros [= <-].
  - rewrite bind_run. destruct (perform c w) as [[[] w1]|] eqn:Hc; [|done].
    apply IH. by eapply perform_instance.
Qed.

(** C8. Once [OfficeManager()] has returned an instance, whatever calls
    are made afterwards (among them [configure_rooms] and further
    [OfficeManager()] requests), a new [OfficeManager()] returns that same
    instance and leaves the whole state as it is: the room list of the
    instance and every room in it are neither reset nor replaced. *)
Theorem OfficeManager_singleton (w : World) (self : loc) (w1 : World)
    (calls : list Call) (w2 : World) :
  OfficeManager_new w = Some (self, w1) →
  for_each calls perform w1 = Some (tt, w2) →
  OfficeManager_new w2 = Some (self, w2).
Proof.
  intros Hnew Hcalls. apply OfficeManager_new_again.
  eapply perform_all_instance; [|exact Hcalls].
  by eapply OfficeManager_new_instance.
Qed.

Lemma OfficeManager_singleton_witness :
  OfficeManager_new empty_world = Some (0%nat, office0)
  ∧ for_each demo_calls perform office0
    = Some (tt, world_after (for_each demo_calls perform) office0)
  ∧ OfficeManager_new (world_after (for_each demo_calls perform) office0)
    = Some (0%nat, world_after (for_each demo_calls perform) office0).
Proof.
  assert (OfficeManager_new empty_world = Some (0%nat, office0)) as H1
    by (vm_compute; reflexivity).
  assert (for_each demo_calls perform office0
          = Some (tt, world_after (for_each demo_calls perform) office0)) as H2
    by (vm_compute; reflexivity).
  split; [exact H1|]. split; [exact H2|].
  exact (OfficeManager_singleton _ _ _ _ _ H1 H2).
Defined.

End Office.

(** ** KananGadhia.py: the sorting strategies *)

Module Strategy.

(** The array is a Python list of integers, sorted in place.  The loops
    and [partition], which call nothing but built-ins, return the list as
    they leave it, or [None] when a subscript raises [IndexError]; the
    methods that are called with a stack [depth] end in a [result]. *)

(** [array[i], array[j] = array[j], array[i]]: the right-hand side is
    read first, left to right, then the two stores happen in order. *)
Definition swap (array : list Z) (i j : Z) : option (list Z) :=
  at_j ← Py.getitem array j;
  at_i ← Py.getitem array i;
  array1 ← Py.setitem array i at_j;
  Py.setitem array1 j at_i.

(** [for x in xs: s = body(x, s)], with [s] the variables the loop
    updates. *)
Fixpoint for_range {S} (xs : list Z) (body : Z → S → option S) (s : S) : option S :=
  match xs with
  | [] => Some s
  | x :: xs' => s' ← body x s; for_range xs' body s'
  end.

(** *** BubbleSort *)

(** The body of the inner loop. *)
Definition bubble_step (j : Z) (array : list Z) : option (list Z) :=
  a ← Py.getitem array j;
  b ← Py.getitem array (j + 1);
  if a >? b then swap array j (j + 1) else Some array.

Definition bubble_sort (array : list Z) : option (list Z) :=
  let n := Py.len array in
  for_range (Py.range (n - 1)) (λ i,
    for_range (Py.range (n - i - 1)) bubble_step) array.

(** [BubbleSort.sort(array)], called with [depth] frames free: the line
    printed and how the call ends. *)
Definition BubbleSort_sort (depth : nat) (array : list Z)
  : list string * result (list Z) :=
  match depth with
  | O => ([], Raises RecursionError)
  | S _ => (["Sorting array using Bubble Sort"], or_raise IndexError (bubble_sort array))
  end.

(** *** QuickSort *)

(** The body of the loop of [partition], on the variables [array], [i]. *)
Definition partition_step (pivot : Z) (j : Z) (s : list Z * Z) : option (list Z * Z) :=
  let '(array, i) := s in
  a ← Py.getitem array j;
  if a <=? pivot then
    let i := i + 1 in
    array' ← swap array i j;
    Some (array', i)
  else Some (array, i).

(** [partition(array, low, high)] returns the array afterwards and the
    pivot position. *)
Definition partition (array : list Z) (low high : Z) : option (list Z * Z) :=
  pivot ← Py.getitem array high;
  '(array1, i) ← for_range (Py.range2 low high) (partition_step pivot) (array, low - 1);
  array2 ← swap array1 (i + 1) high;
  Some (array2, i + 1).

(** The loop of [partition] moves [i] up by at most one per iteration. *)
Lemma partition_loop_bounds pivot js : ∀ array i array' i',
  for_range js (partition_step pivot) (array, i) = Some (array', i') →
  i ≤ i' ≤ i + Z.of_nat (length js).
Proof.
  induction js as [|j js IH]; intros array i array' i'; simpl.
  - intros [= _ <-]. lia.
  - destruct (Py.getitem array j) as [a|]; [simpl|done].
    destruct (a <=? pivot).
    + destruct (swap array (i + 1) j) as [array1|]; [simpl|done].
      intros H%IH. lia.
    + intros H%IH. lia.
Qed.

(** The pivot position lies in the segment that was partitioned. *)
Lemma partition_bounds array low high array' pi :
  low ≤ high → partition array low high = Some (array', pi) → low ≤ pi ≤ high.
Proof.
  intros Hle. unfold partition.
  destruct (Py.getitem array high) as [pivot|]; [simpl|done].
  destruct (for_range _ _ _) as [[array1 i]|] eqn:Hloop; [simpl|done].
  destruct (swap array1 (i + 1) high) as [array2|]; [simpl|done].
  intros [= _ <-]. apply partition_loop_bounds in Hloop.
  unfold Py.range2 in Hloop. rewrite length_seqZ in Hloop. lia.
Qed.

(** [quick_sort(array, low, high)], called with [depth] frames free.  The
    call itself takes one frame; the call of [partition] and the two
    recursive calls are made from inside it, each with the frames that are
    left. *)
Fixpoint quick_sort (depth : nat) (array : list Z) (low high : Z) : result (list Z) :=
  match depth with
  | O => Raises RecursionError
  | S depth' =>
      if decide (low < high) then
        '(array1, pi) ← call depth' (λ _, or_raise IndexError (partition array low high));
        array2 ← quick_sort depth' array1 low (pi - 1);
        quick_sort depth' array2 (pi + 1) high
      else Returns array
  end.

(** [QuickSort.sort(array)], called with [depth] frames free: the line
    printed and how the call ends. *)
Definition QuickSort_sort (depth : nat) (array : list Z)
  : list string * result (list Z) :=
  match depth with
  | O => ([], Raises RecursionError)
  | S depth' =>
      (["Sorting array using Quick Sort"], quick_sort depth' array 0 (Py.len array - 1))
  end.

(** What the exchange [array[i], array[j]] does to the block of values
    above the pivot when the value at [j] joins the block below it: its
    first element goes to the end. *)
Definition rotate (hi : list Z) : list Z :=
  match hi with
  | [] => []
  | h :: hi' => hi' ++ [h]
  end.

(** The array of the script's demo, under either strategy, with the
    stack the script has at top level under the default limit (one of the
    1000 frames is the script's own). *)
Example demo_sorted :
  BubbleSort_sort 999 [10; 5; 2; 8; 7]
    = (["Sorting array using Bubble Sort"], Returns [2; 5; 7; 8; 10])
  ∧ QuickSort_sort 999 [10; 5; 2; 8; 7]
    = (["Sorting array using Quick Sort"], Returns [2; 5; 7; 8; 10]).
Proof. split; vm_compute; reflexivity. Qed.

(** The recursion of [quick_sort] as the source writes it. *)
Lemma quick_sort_body depth array low high :
  quick_sort (S depth) array low high
  = if decide (low < high) then
      '(array1, pi) ← call depth (λ _, or_raise IndexError (partition array low high));
      array2 ← quick_sort depth array1 low (pi - 1);
      quick_sort depth array2 (pi + 1) high
    else Returns array.
Proof. reflexivity. Qed.

(** *** Subscripts inside a list written as a concatenation *)

Lemma len_app {A} (l1 l2 : list A) : Py.len (l1 ++ l2) = Py.len l1 + Py.len l2.
Proof. unfold Py.len. rewrite length_app. lia. Qed.

Lemma len_cons {A} (x : A) (l : list A) : Py.len (x :: l) = 1 + Py.len l.
Proof. unfold Py.len. simpl. lia. Qed.

Lemma len_nil {A} : Py.len (@nil A) = 0.
Proof. reflexivity. Qed.

Lemma len_nonneg {A} (l : list A) : 0 ≤ Py.len l.
Proof. unfold Py.len. lia. Qed.

(** Puts every length in the goal in terms of the lengths of the parts. *)
Ltac len_simp := rewrite ?len_app, ?len_cons, ?len_nil.
Ltac len_lia :=
  len_simp;
  repeat match goal with
         | |- context [Py.len ?l] =>
             lazymatch goal with
             | _ : 0 ≤ Py.len l |- _ => fail
             | _ => pose proof (len_nonneg l)
             end
         end;
  lia.

Lemma index_in_range n i : 0 ≤ i < n → Py.index n i = Some (Z.to_nat i).
Proof. intros H. unfold Py.index. by rewrite decide_True. Qed.

Lemma getitem_middle {A} (l1 l2 : list A) (x : A) (i : Z) :
  i = Py.len l1 → Py.getitem (l1 ++ x :: l2) i = Some x.
Proof.
  intros ->. unfold Py.getitem. rewrite index_in_range by len_lia. simpl.
  apply list_lookup_middle. unfold Py.len. lia.
Qed.

Lemma setitem_middle {A} (l1 l2 : list A) (x y : A) (i : Z) :
  i = Py.len l1 → Py.setitem (l1 ++ x :: l2) i y = Some (l1 ++ y :: l2).
Proof.
  intros ->. unfold Py.setitem. rewrite index_in_range by len_lia. simpl.
  unfold Py.len. rewrite Nat2Z.id, insert_app_r_alt, Nat.sub_diag by lia. done.
Qed.

(** Exchanging two distinct positions. *)
Lemma swap_apart (l1 l2 l3 : list Z) (x y : Z) (i j : Z) :
  i = Py.len l1 → j = Py.len l1 + 1 + Py.len l2 →
  swap (l1 ++ x :: l2 ++ y :: l3) i j = Some (l1 ++ y :: l2 ++ x :: l3).
Proof.
  intros Hi Hj. unfold swap.
  assert (∀ a b, l1 ++ a :: l2 ++ b :: l3 = (l1 ++ a :: l2) ++ b :: l3) as Hassoc
    by (intros; by rewrite <- app_assoc).
  rewrite (Hassoc x y), (getitem_middle _ _ y j) by (subst; len_lia). simpl.
  rewrite <- Hassoc, (getitem_middle _ _ x i) by done. simpl.
  rewrite (setitem_middle _ _ x y i) by done. simpl.
  rewrite (Hassoc y y), (setitem_middle _ _ y x j) by (subst; len_lia).
  by rewrite <- Hassoc.
Qed.

(** Exchanging a position with itself. *)
Lemma swap_same (l1 l2 : list Z) (x : Z) (i : Z) :
  i = Py.len l1 → swap (l1 ++ x :: l2) i i = Some (l1 ++ x :: l2).
Proof.
  intros Hi. unfold swap. rewrite (getitem_middle _ _ x i) by done. simpl.
  rewrite (setitem_middle _ _ x x i) by done. simpl.
  by rewrite (setitem_middle _ _ x x i).
Qed.

Lemma for_range_cons {S} (m n : Z) (body : Z → S → option S) (s : S) :
  0 < n →
  for_range (seqZ m n) body s = body m s ≫= for_range (seqZ (m + 1) (n - 1)) body.
Proof. intros Hn. rewrite seqZ_cons by done. simpl. by rewrite Z.add_1_r. Qed.

Lemma for_range_nil {S} (m n : Z) (body : Z → S → option S) (s : S) :
  n ≤ 0 → for_range (seqZ m n) body s = Some s.
Proof. intros Hn. by rewrite seqZ_nil. Qed.

(** *** BubbleSort is correct *)

(** The inner loop body puts two neighbours in order. *)
Lemma bubble_step_run (pre tail : list Z) (x y : Z) (j : Z) :
  j = Py.len pre →
  bubble_step j (pre ++ x :: y :: tail)
  = Some (if x >? y then pre ++ y :: x :: tail else pre ++ x :: y :: tail).
Proof.
  intros Hj. unfold bubble_step.
  rewrite (getitem_middle pre _ x j) by done. simpl.
  replace (pre ++ x :: y :: tail) with ((pre ++ [x]) ++ y :: tail)
    by (by rewrite <- app_assoc).
  rewrite (getitem_middle (pre ++ [x]) _ y (j + 1)) by (subst; len_lia). simpl.
  rewrite <- app_assoc. simpl.
  destruct (x >? y); [|done].
  by rewrite (swap_apart pre [] tail x y) by (subst; len_lia).
Qed.

(** One pass of the inner loop, started at position [len pre] where the
    largest value met so far sits: it carries the maximum of
    [pre ++ x :: rest] to the end of that segment. *)
Lemma bubble_pass (post rest : list Z) : ∀ (pre : list Z) (x : Z),
  Forall (λ a, a ≤ x) pre →
  ∃ pre' top,
    for_range (seqZ (Py.len pre) (Py.len rest)) bubble_step (pre ++ x :: rest ++ post)
    = Some (pre' ++ top :: post)
    ∧ Forall (λ a, a ≤ top) pre'
    ∧ pre' ++ [top] ≡ₚ pre ++ x :: rest.
Proof.
  induction rest as [|y rest IH]; intros pre x Hpre.
  - exists pre, x. rewrite for_range_nil by done. done.
  - rewrite for_range_cons by len_lia. cbn [app].
    rewrite bubble_step_run by done. simpl.
    replace (Py.len (y :: rest) - 1) with (Py.len rest) by len_lia.
    destruct (x >? y) eqn:Hxy.
    + apply Z.gtb_lt in Hxy.
      destruct (IH (pre ++ [y]) x) as (pre' & top & Hrun & Htop & Hperm).
      { apply Forall_app. split; [done|]. constructor; [lia|constructor]. }
      rewrite len_app, len_cons, len_nil, Z.add_0_r, <- app_assoc in Hrun.
      exists pre', top. split; [exact Hrun|].
      split; [done|]. rewrite Hperm, <- app_assoc. simpl.
      apply Permutation_app_head, perm_swap.
    + rewrite Z.gtb_ltb in Hxy. apply Z.ltb_ge in Hxy.
      destruct (IH (pre ++ [x]) y) as (pre' & top & Hrun & Htop & Hperm).
      { apply Forall_app. split.
        - eapply Forall_impl; [exact Hpre|]. simpl. lia.
        - constructor; [lia|constructor]. }
      rewrite len_app, len_cons, len_nil, Z.add_0_r, <- app_assoc in Hrun.
      exists pre', top. split; [exact Hrun|].
      split; [done|]. by rewrite Hperm, <- app_assoc.
Qed.

(** The outer loop from pass [len t] on: [t] is the sorted tail already
    in place, every element of the unsorted part [u] is below it, and [k]
    passes remain for the [k+1] elements of [u]. *)
Lemma bubble_passes (n : Z) : ∀ (k : nat) (u t : list Z),
  length u = S k →
  n = Py.len u + Py.len t →
  StronglySorted Z.le t →
  Forall (λ a, Forall (λ b, a ≤ b) t) u →
  ∃ res,
    for_range (seqZ (Py.len t) (Z.of_nat k))
      (λ i, for_range (Py.range (n - i - 1)) bubble_step) (u ++ t) = Some res
    ∧ StronglySorted Z.le res
    ∧ res ≡ₚ u ++ t.
Proof.
  induction k as [|k IH]; intros u t Hlen Hn Ht Hut.
  - destruct u as [|a [|? ?]]; try done.
    exists (a :: t). rewrite for_range_nil by done.
    split; [done|]. split; [|done].
    constructor; [done|]. by apply Forall_cons in Hut as [? _].
  - destruct u as [|x rest]; [done|]. injection Hlen as Hlen.
    rewrite for_range_cons by lia.
    replace (Py.range (n - Py.len t - 1)) with (seqZ (Py.len (@nil Z)) (Py.len rest)).
    2:{ unfold Py.range, Py.range2. rewrite len_nil. f_equal. subst n. len_lia. }
    destruct (bubble_pass t rest [] x) as (pre' & top & Hrun & Htop & Hperm);
      [constructor|].
    simpl in Hrun, Hperm. cbn [app]. rewrite Hrun. simpl.
    assert (length pre' = S k) as Hlen'.
    { apply Permutation_length in Hperm. rewrite length_app in Hperm.
      simpl in Hperm. lia. }
    assert (Forall (λ b, top ≤ b) t) as Htopt.
    { rewrite Forall_forall in Hut. apply Hut.
      rewrite <- Hperm. apply elem_of_app. right. by apply list_elem_of_singleton. }
    destruct (IH pre' (top :: t)) as (res & Hres & Hsorted & Hresperm).
    + done.
    + subst n. apply Permutation_length in Hperm.
      unfold Py.len. rewrite length_app in Hperm. simpl in *. lia.
    + by constructor.
    + rewrite Forall_forall. intros a Ha. constructor.
      * rewrite Forall_forall in Htop. by apply Htop.
      * rewrite Forall_forall in Hut. apply Hut.
        rewrite <- Hperm. apply elem_of_app. by left.
    + exists res. split; [|split; [done|]].
      * rewrite <- Hres. f_equal. f_equal; len_lia.
      * rewrite Hresperm.
        change (pre' ++ top :: t) with (pre' ++ [top] ++ t).
        by rewrite app_assoc, Hperm.
Qed.

Theorem bubble_sort_correct (array : list Z) :
  ∃ res, bubble_sort array = Some res ∧ StronglySorted Z.le res ∧ res ≡ₚ array.
Proof.
  unfold bubble_sort. destruct array as [|x rest].
  - exists []. split; [done|]. split; [constructor|done].
  - destruct (bubble_passes (Py.len (x :: rest)) (length rest) (x :: rest) [])
      as (res & Hres & Hsorted & Hperm).
    + done.
    + len_lia.
    + constructor.
    + apply Forall_forall. intros; constructor.
    + rewrite app_nil_r in Hres, Hperm. exists res. split; [|done].
      rewrite <- Hres. unfold Py.range, Py.range2.
      change (Py.len (@nil Z)) with 0.
      f_equal. f_equal. unfold Py.len. simpl length. lia.
Qed.

(** *** QuickSort is correct *)

Lemma rotate_perm hi : rotate hi ≡ₚ hi.
Proof. destruct hi as [|h hi]; [done|]. simpl. by rewrite Permutation_app_comm. Qed.

Lemma rotate_len hi : Py.len (rotate hi) = Py.len hi.
Proof. unfold Py.len. by rewrite (Permutation_length (rotate_perm hi)). Qed.

Lemma rotate_Forall (P : Z → Prop) hi : Forall P hi → Forall P (rotate hi).
Proof. intros H. by rewrite rotate_perm. Qed.

(** One iteration of the loop of [partition] at position [j], where the
    array is [pre], the values [lo] not above the pivot, the values [hi]
    above it, then the value [x] under inspection. *)
Lemma partition_step_run (pivot : Z) (pre lo hi tail : list Z) (x : Z) (i j : Z) :
  j = Py.len pre + Py.len lo + Py.len hi →
  i = Py.len pre + Py.len lo - 1 →
  partition_step pivot j (pre ++ lo ++ hi ++ x :: tail, i)
  = Some (if x <=? pivot
          then (pre ++ (lo ++ [x]) ++ rotate hi ++ tail, i + 1)
          else (pre ++ lo ++ (hi ++ [x]) ++ tail, i)).
Proof.
  intros Hj Hi. unfold partition_step.
  replace (pre ++ lo ++ hi ++ x :: tail) with ((pre ++ lo ++ hi) ++ x :: tail)
    by (by rewrite <- !app_assoc).
  rewrite (getitem_middle _ _ x j) by (subst; len_lia). simpl.
  destruct (x <=? pivot).
  - destruct hi as [|h hi]; simpl.
    + rewrite app_nil_r.
      replace j with (i + 1) by (subst; len_lia).
      rewrite (swap_same (pre ++ lo) tail x) by (subst; len_lia). simpl.
      by rewrite <- !app_assoc.
    + replace ((pre ++ lo ++ h :: hi) ++ x :: tail)
        with ((pre ++ lo) ++ h :: hi ++ x :: tail) by (by rewrite <- !app_assoc).
      rewrite (swap_apart (pre ++ lo) hi tail h x) by (subst; len_lia). simpl.
      by rewrite <- !app_assoc.
  - by rewrite <- !app_assoc.
Qed.

(** The loop of [partition] over the values [rest] still to inspect. *)
Lemma partition_loop (pivot : Z) (pre post rest : list Z) : ∀ lo hi : list Z,
  Forall (λ a, a ≤ pivot) lo →
  Forall (λ a, pivot < a) hi →
  ∃ lo' hi',
    for_range (seqZ (Py.len pre + Py.len lo + Py.len hi) (Py.len rest))
      (partition_step pivot)
      (pre ++ lo ++ hi ++ rest ++ post, Py.len pre + Py.len lo - 1)
    = Some (pre ++ lo' ++ hi' ++ post, Py.len pre + Py.len lo' - 1)
    ∧ Forall (λ a, a ≤ pivot) lo'
    ∧ Forall (λ a, pivot < a) hi'
    ∧ lo' ++ hi' ≡ₚ lo ++ hi ++ rest.
Proof.
  induction rest as [|x rest IH]; intros lo hi Hlo Hhi.
  - exists lo, hi. rewrite for_range_nil by done. by rewrite app_nil_r.
  - rewrite for_range_cons by len_lia. cbn [app].
    rewrite partition_step_run by done. simpl.
    replace (Py.len (x :: rest) - 1) with (Py.len rest) by len_lia.
    destruct (x <=? pivot) eqn:Hx.
    + apply Z.leb_le in Hx.
      destruct (IH (lo ++ [x]) (rotate hi)) as (lo' & hi' & Hrun & Hlo' & Hhi' & Hperm).
      { apply Forall_app. split; [done|]. by constructor. }
      { by apply rotate_Forall. }
      exists lo', hi'. split; [|split; [done|split; [done|]]].
      * rewrite <- Hrun. rewrite rotate_len. f_equal; [f_equal|f_equal]; len_lia.
      * rewrite Hperm, rotate_perm, <- app_assoc. simpl.
        apply Permutation_app_head, Permutation_middle.
    + apply Z.leb_gt in Hx.
      destruct (IH lo (hi ++ [x])) as (lo' & hi' & Hrun & Hlo' & Hhi' & Hperm).
      { done. }
      { apply Forall_app. split; [done|]. by constructor. }
      exists lo', hi'. split; [|split; [done|split; [done|]]].
      * rewrite <- Hrun. f_equal. f_equal. len_lia.
      * by rewrite Hperm, <- app_assoc.
Qed.

(** [partition] on the segment [seg ++ [pivot]] that follows [pre]: the
    pivot ends between the values not above it and the values above it,
    and nothing outside the segment moves. *)
Lemma partition_run (pre seg post : list Z) (pivot : Z) (low high : Z) :
  low = Py.len pre →
  high = Py.len pre + Py.len seg →
  ∃ lo hi,
    partition (pre ++ seg ++ pivot :: post) low high
    = Some (pre ++ lo ++ pivot :: hi ++ post, Py.len pre + Py.len lo)
    ∧ Forall (λ a, a ≤ pivot) lo
    ∧ Forall (λ a, pivot < a) hi
    ∧ lo ++ hi ≡ₚ seg.
Proof.
  intros Hlow Hhigh. unfold partition.
  replace (pre ++ seg ++ pivot :: post) with ((pre ++ seg) ++ pivot :: post)
    by (by rewrite <- app_assoc).
  rewrite (getitem_middle _ _ pivot high) by (subst; len_lia). simpl.
  rewrite <- app_assoc.
  destruct (partition_loop pivot pre (pivot :: post) seg [] [])
    as (lo & hi & Hrun & Hlo & Hhi & Hperm); [constructor..|].
  simpl in Hrun, Hperm.
  replace (Py.range2 low high) with (seqZ (Py.len pre + Py.len (@nil Z) + Py.len (@nil Z)) (Py.len seg)).
  2:{ unfold Py.range2. change (Py.len (@nil Z)) with 0. f_equal; lia. }
  replace (low - 1) with (Py.len pre + Py.len (@nil Z) - 1)
    by (change (Py.len (@nil Z)) with 0; lia).
  rewrite Hrun. simpl.
  exists lo, (rotate hi). apply Permutation_length in Hperm as Hlen.
  rewrite length_app in Hlen.
  split; [|split; [done|split; [by apply rotate_Forall|by rewrite rotate_perm]]].
  destruct hi as [|h hi]; simpl.
  - replace (pre ++ lo ++ pivot :: post) with ((pre ++ lo) ++ pivot :: post)
      by (by rewrite <- app_assoc).
    replace high with (Py.len pre + Py.len lo - 1 + 1)
      by (subst; unfold Py.len; simpl in Hlen; lia).
    rewrite (swap_same (pre ++ lo) post pivot) by len_lia.
    simpl. by rewrite Z.sub_add.
  - replace (pre ++ lo ++ h :: hi ++ pivot :: post)
      with ((pre ++ lo) ++ h :: hi ++ pivot :: post) by (by rewrite <- app_assoc).
    rewrite (swap_apart (pre ++ lo) hi post h pivot).
    2:{ len_lia. }
    2:{ subst. unfold Py.len. rewrite length_app. simpl in Hlen. lia. }
    simpl. rewrite <- !app_assoc. simpl. by rewrite Z.sub_add.
Qed.

Lemma snoc_cases (l : list Z) : l = [] ∨ ∃ l' x, l = l' ++ [x].
Proof. induction l as [|x l' _] using rev_ind; eauto. Qed.

(** [quick_sort] on the segment [seg] between [pre] and [post], with at
    least one frame free and no fewer frames than the segment has
    elements, sorts the segment and moves nothing else. *)
Lemma quick_sort_run : ∀ (depth : nat) (pre seg post : list Z),
  (0 < depth)%nat →
  (length seg ≤ depth)%nat →
  ∃ seg',
    quick_sort depth (pre ++ seg ++ post) (Py.len pre) (Py.len pre + Py.len seg - 1)
    = Returns (pre ++ seg' ++ post)
    ∧ StronglySorted Z.le seg'
    ∧ seg' ≡ₚ seg.
Proof.
  induction depth as [|depth IH]; intros pre seg post Hpos Hn; [lia|].
  rewrite quick_sort_body.
  destruct (decide (Py.len pre < Py.len pre + Py.len seg - 1)) as [Hlt|Hge].
  - destruct (snoc_cases seg) as [->|(seg0 & pivot & ->)]; [revert Hlt; len_lia|].
    rewrite length_app in Hn. simpl in Hn.
    assert (0 < depth)%nat as Hdepth.
    { revert Hlt. unfold Py.len. rewrite length_app. simpl. lia. }
    destruct (partition_run pre seg0 post pivot (Py.len pre)
                (Py.len pre + Py.len (seg0 ++ [pivot]) - 1))
      as (lo & hi & Hpart & Hlo & Hhi & Hperm); [done|len_lia|].
    rewrite <- (app_assoc seg0). cbn [app]. rewrite Hpart.
    destruct depth as [|depth']; [lia|]. cbn [call or_raise mbind result_bind].
    apply Permutation_length in Hperm as Hlen. rewrite length_app in Hlen.
    destruct (IH pre lo (pivot :: hi ++ post)) as (lo' & Hleft & Hlo' & Hpermlo);
      [lia|lia|].
    rewrite Hleft. cbn [mbind result_bind].
    apply Permutation_length in Hpermlo as Hlenlo.
    destruct (IH (pre ++ lo' ++ [pivot]) hi post) as (hi' & Hright & Hhi' & Hpermhi);
      [lia|lia|].
    rewrite <- !app_assoc in Hright. cbn [app] in Hright.
    replace (Py.len pre + Py.len lo + 1) with (Py.len (pre ++ lo' ++ [pivot])).
    2:{ unfold Py.len. rewrite !length_app. simpl. lia. }
    replace (Py.len pre + Py.len (seg0 ++ [pivot]) - 1)
      with (Py.len (pre ++ lo' ++ [pivot]) + Py.len hi - 1).
    2:{ unfold Py.len. rewrite !length_app. simpl. lia. }
    rewrite Hright.
    exists (lo' ++ pivot :: hi'). split; [by rewrite <- !app_assoc|]. split.
    + apply StronglySorted_app_2; [|done|].
      * intros a b Ha Hb. rewrite Hpermlo in Ha.
        rewrite Forall_forall in Hlo. specialize (Hlo _ Ha).
        apply elem_of_cons in Hb as [->|Hb]; [done|].
        rewrite Hpermhi in Hb. rewrite Forall_forall in Hhi.
        specialize (Hhi _ Hb). lia.
      * constructor; [done|]. rewrite Hpermhi.
        eapply Forall_impl; [exact Hhi|]. simpl. lia.
    + rewrite Hpermlo, Hpermhi, <- Hperm, <- app_assoc.
      apply Permutation_app_head, Permutation_cons_append.
  - exists seg. split; [done|]. split; [|done].
    destruct seg as [|a [|b seg]].
    + constructor.
    + repeat constructor.
    + revert Hge. len_lia.
Qed.

Theorem quick_sort_correct (depth : nat) (array : list Z) :
  (0 < depth)%nat →
  (length array ≤ depth)%nat →
  ∃ res, quick_sort depth array 0 (Py.len array - 1) = Returns res
         ∧ StronglySorted Z.le res ∧ res ≡ₚ array.
Proof.
  intros Hpos Hlen.
  destruct (quick_sort_run depth [] array [] Hpos Hlen)
    as (res & Hrun & Hsorted & Hperm).
  rewrite !app_nil_r in Hrun. simpl in Hrun. by exists res.
Qed.

(** *** QuickSort on an array already in order *)

(** The loop of [partition] over values [rest] none of which is above the
    pivot: each is exchanged with itself. *)
Lemma partition_loop_below (pivot : Z) (pre post rest : list Z) : ∀ lo : list Z,
  Forall (λ a, a ≤ pivot) rest →
  for_range (seqZ (Py.len pre + Py.len lo) (Py.len rest)) (partition_step pivot)
    (pre ++ lo ++ rest ++ post, Py.len pre + Py.len lo - 1)
  = Some (pre ++ (lo ++ rest) ++ post, Py.len pre + Py.len (lo ++ rest) - 1).
Proof.
  induction rest as [|x rest IH]; intros lo Hrest.
  - rewrite for_range_nil by done. by rewrite app_nil_r.
  - apply Forall_cons in Hrest as [Hx Hrest].
    rewrite for_range_cons by len_lia. cbn [app].
    pose proof (partition_step_run pivot pre lo [] (rest ++ post) x
                  (Py.len pre + Py.len lo - 1) (Py.len pre + Py.len lo)) as Hstep.
    cbn [app rotate] in Hstep. rewrite Hstep by len_lia. clear Hstep.
    apply Z.leb_le in Hx. rewrite Hx. simpl.
    specialize (IH (lo ++ [x]) Hrest).
    replace (Py.len pre + Py.len lo + 1) with (Py.len pre + Py.len (lo ++ [x])) by len_lia.
    replace (Py.len (x :: rest) - 1) with (Py.len rest) by len_lia.
    replace (Py.len pre + Py.len lo - 1 + 1) with (Py.len pre + Py.len (lo ++ [x]) - 1)
      by len_lia.
    rewrite <- !app_assoc in IH. rewrite <- !app_assoc. cbn [app] in IH |- *.
    exact IH.
Qed.

(** [partition] on a segment whose last value is its greatest changes
    nothing and returns [high]. *)
Lemma partition_below (pre seg post : list Z) (pivot : Z) (low high : Z) :
  low = Py.len pre →
  high = Py.len pre + Py.len seg →
  Forall (λ a, a ≤ pivot) seg →
  partition (pre ++ seg ++ pivot :: post) low high
  = Some (pre ++ seg ++ pivot :: post, high).
Proof.
  intros Hlow Hhigh Hseg. unfold partition.
  replace (pre ++ seg ++ pivot :: post) with ((pre ++ seg) ++ pivot :: post) at 1
    by (by rewrite <- app_assoc).
  rewrite (getitem_middle _ _ pivot high) by (subst; len_lia). simpl.
  pose proof (partition_loop_below pivot pre (pivot :: post) seg [] Hseg) as Hrun.
  cbn [app] in Hrun. change (Py.len (@nil Z)) with 0 in Hrun.
  replace (Py.range2 low high) with (seqZ (Py.len pre + 0) (Py.len seg)).
  2:{ unfold Py.range2. f_equal; lia. }
  replace (low - 1) with (Py.len pre + 0 - 1) by lia.
  rewrite Hrun. simpl.
  replace (pre ++ seg ++ pivot :: post) with ((pre ++ seg) ++ pivot :: post)
    by (by rewrite <- app_assoc).
  replace high with (Py.len pre + Py.len seg - 1 + 1) at 1 2 by lia.
  rewrite (swap_same (pre ++ seg) post pivot) by len_lia.
  done.
Qed.

(** On a segment already in non-decreasing order every call of
    [quick_sort] finds the pivot last and calls itself on all values but
    that one, so that the calls nest as deep as the segment is long: with
    fewer frames free than the segment has values, the stack runs out. *)
Lemma quick_sort_ordered : ∀ (depth : nat) (pre seg post : list Z),
  StronglySorted Z.le seg →
  (depth < length seg)%nat →
  quick_sort depth (pre ++ seg ++ post) (Py.len pre) (Py.len pre + Py.len seg - 1)
  = Raises RecursionError.
Proof.
  induction depth as [|depth IH]; intros pre seg post Hsorted Hn; [done|].
  rewrite quick_sort_body.
  destruct (snoc_cases seg) as [->|(seg0 & pivot & ->)]; [simpl in Hn; lia|].
  rewrite length_app in Hn. simpl in Hn.
  rewrite decide_True by (len_simp; unfold Py.len; lia).
  destruct depth as [|depth']; [done|]. cbn [call].
  apply StronglySorted_app in Hsorted as (Hle & Hsorted0 & _).
  rewrite <- (app_assoc seg0). cbn [app].
  rewrite (partition_below pre seg0 post pivot); [|done|len_lia|].
  2:{ apply Forall_forall. intros a Ha. apply (Hle a pivot Ha). by apply list_elem_of_singleton. }
  cbn [or_raise mbind result_bind].
  replace (Py.len pre + Py.len (seg0 ++ [pivot]) - 1 - 1)
    with (Py.len pre + Py.len seg0 - 1) by len_lia.
  by rewrite (IH pre seg0 (pivot :: post)) by (done || lia).
Qed.

Lemma seqZ_sorted (n : nat) : ∀ m : Z, StronglySorted Z.le (seqZ m (Z.of_nat n)).
Proof.
  induction n as [|n IH]; intros m.
  - constructor.
  - rewrite Nat2Z.inj_succ, seqZ_cons by lia.
    replace (Z.pred (Z.succ (Z.of_nat n))) with (Z.of_nat n) by lia.
    constructor; [apply IH|].
    apply Forall_forall. intros x Hx. apply elem_of_seqZ in Hx. lia.
Qed.

(** [BubbleSort.sort] needs its own frame and no other. *)
Lemma BubbleSort_sort_run (depth : nat) (array : list Z) :
  (0 < depth)%nat →
  ∃ sorted,
    BubbleSort_sort depth array
    = (["Sorting array using Bubble Sort"], Returns sorted)
    ∧ StronglySorted Z.le sorted
    ∧ sorted ≡ₚ array.
Proof.
  intros Hpos. destruct depth as [|depth']; [lia|].
  destruct (bubble_sort_correct array) as (b & Hb & Hsorted & Hperm).
  exists b. unfold BubbleSort_sort. by rewrite Hb.
Qed.




End Strategy.

(** ** KananGadhia2.py: what every call keeps

    Properties of the office that hold across calls: which objects a call
    can touch, what never changes, and what is true of every state the
    script can reach. *)

Module OfficeLaws.

Import Office.

(** The room a call is made on, for the calls made on a room. *)
Definition room_of_call (c : Call) : option loc :=
  match c with
  | CallSetMaxCapacity room _ => Some room
  | CallGetRoomNumber room => Some room
  | CallAddOccupants room _ => Some room
  | CallReleaseOccupants room => Some room
  | CallNotifyObservers room => Some room
  | CallIsOccupied room => Some room
  | CallBook command => Some (book_room command)
  | CallCancel command => Some (cancel_room command)
  | CallOfficeManager | CallConfigureRooms _ _ | CallGetRoom _ _ | CallRoom _ => None
  end.

(** A computation that writes to no object but the room [self]. *)
Definition touches_only {A} (self : loc) (m : M A) : Prop :=
  ∀ w a w', m w = Some (a, w') →
    manager_heap w' = manager_heap w
    ∧ _instance w' = _instance w
    ∧ ∀ other, other ≠ self → room_heap w' !! other = room_heap w !! other.

(** [w'] keeps what [w] has: every room is still there with its number and
    its sensors, every registry still lists the rooms it listed, in the
    same positions, and what was printed is still the start of the
    output. *)
Definition persists (w w' : World) : Prop :=
  (∀ l r, room_heap w !! l = Some r →
     ∃ r', room_heap w' !! l = Some r'
           ∧ room_number r' = room_number r ∧ observers r' = observers r)
  ∧ (∀ l m, manager_heap w !! l = Some m →
       ∃ m', manager_heap w' !! l = Some m' ∧ rooms m `prefix_of` rooms m')
  ∧ stdout w `prefix_of` stdout w'.

Definition monotone {A} (m : M A) : Prop :=
  ∀ w a w', m w = Some (a, w') → persists w w'.

(** The states in which every reference is to a live object of the right
    class and every room is as the constructor and the setters leave it. *)
Record well_formed (w : World) : Prop := mkWellFormed {
  wf_capacity : ∀ l r, room_heap w !! l = Some r → 0 ≤ max_capacity r;
  wf_observers : ∀ l r, room_heap w !! l = Some r → observers r = [AC; Lights];
  wf_rooms_distinct : ∀ l m, manager_heap w !! l = Some m → NoDup (rooms m);
  wf_rooms_live : ∀ l m x, manager_heap w !! l = Some m → x ∈ rooms m →
                  is_Some (room_heap w !! x);
  wf_single : ∀ l, is_Some (manager_heap w !! l) → _instance w = Some l;
  wf_instance_live : ∀ l, _instance w = Some l → is_Some (manager_heap w !! l)
}.

Definition keeps_well_formed {A} (m : M A) : Prop :=
  ∀ w a w', well_formed w → m w = Some (a, w') → well_formed w'.

(** A state the script can be in: the initial one after some calls. *)
Definition reachable (w : World) : Prop :=
  ∃ calls, for_each calls perform empty_world = Some (tt, w).

(** The calls that change occupancy, and what each one records. *)
Inductive OccupancyCall :=
| AddOccupants (count : Z)
| ReleaseOccupants.

Definition occupancy_call (self : loc) (c : OccupancyCall) : M unit :=
  match c with
  | AddOccupants count => Room_add_occupants self count
  | ReleaseOccupants => Room_release_occupants self
  end.

Definition records_occupied (c : OccupancyCall) : bool :=
  match c with
  | AddOccupants count => count >=? 2
  | ReleaseOccupants => false
  end.

(** A run of the script's kind from the initial state: the manager is
    built, three rooms are configured, one gets a capacity, one is booked,
    two more rooms are configured. *)
Definition script_calls : list Call :=
  [ CallOfficeManager;
    CallConfigureRooms 0%nat 3;
    CallSetMaxCapacity 0%nat 10;
    CallSetMaxCapacity 1%nat (-5);
    CallBook (mkBookRoomCommand 1%nat "09:00" 60);
    CallConfigureRooms 0%nat 2 ].

Definition script_world : World := world_after (for_each script_calls perform) empty_world.

(** *** One room at a time *)

Lemma touches_ret {A} self (a : A) : touches_only self (mret a).
Proof. by intros w a' w' [= _ <-]. Qed.

Lemma touches_bind {A B} self (m : M A) (k : A → M B) :
  touches_only self m → (∀ a, touches_only self (k a)) → touches_only self (m ≫= k).
Proof.
  intros Hm Hk w b w' Hrun. rewrite bind_run in Hrun.
  destruct (m w) as [[a w1]|] eqn:Hmw; [|done].
  destruct (Hm _ _ _ Hmw) as (Hm1 & Hi1 & Hr1).
  destruct (Hk _ _ _ _ Hrun) as (Hm2 & Hi2 & Hr2).
  split; [congruence|]. split; [congruence|].
  intros other Hne. rewrite Hr2, Hr1; done.
Qed.

Lemma touches_print self line : touches_only self (print line).
Proof. by intros w a w' [= _ <-]. Qed.

Lemma touches_load_room self l : touches_only self (load_room l).
Proof. intros w a w'. unfold load_room. destruct (_ !! _); [by intros [= _ <-]|done]. Qed.

Lemma touches_store_room self r : touches_only self (store_room self r).
Proof.
  intros w a w' [= _ <-]. split; [done|]. split; [done|].
  intros other Hne. simpl. by rewrite lookup_insert_ne.
Qed.

Lemma touches_for_each {A} self (xs : list A) (body : A → M unit) :
  (∀ x, touches_only self (body x)) → touches_only self (for_each xs body).
Proof.
  intros Hbody. induction xs as [|x xs IH]; simpl.
  - apply touches_ret.
  - apply touches_bind; [apply Hbody | by intros _].
Qed.

Lemma touches_if {A} self (b : bool) (m1 m2 : M A) :
  touches_only self m1 → touches_only self m2 →
  touches_only self (if b then m1 else m2).
Proof. by destruct b. Qed.

Create HintDb touches discriminated.

#[local] Hint Resolve touches_ret touches_bind touches_print touches_load_room
  touches_store_room touches_for_each touches_if : touches.

Lemma touches_Observer_update self o b : touches_only self (Observer_update o b).
Proof. destruct o, b; apply touches_print. Qed.

Lemma touches_set_occupied self b : touches_only self (set_occupied self b).
Proof. unfold set_occupied. auto with touches. Qed.

Lemma touches_Room_is_occupied self : touches_only self (Room_is_occupied self).
Proof. unfold Room_is_occupied. auto with touches. Qed.

Lemma touches_Room_get_room_number self : touches_only self (Room_get_room_number self).
Proof. unfold Room_get_room_number. auto with touches. Qed.

#[local] Hint Resolve touches_Observer_update touches_set_occupied
  touches_Room_is_occupied touches_Room_get_room_number : touches.

Lemma touches_Room_notify_observers self : touches_only self (Room_notify_observers self).
Proof. unfold Room_notify_observers. auto 10 with touches. Qed.

#[local] Hint Resolve touches_Room_notify_observers : touches.

Lemma touches_Room_set_max_capacity self n : touches_only self (Room_set_max_capacity self n).
Proof. unfold Room_set_max_capacity, set_max_capacity. auto 10 with touches. Qed.

Lemma touches_Room_add_occupants self count : touches_only self (Room_add_occupants self count).
Proof. unfold Room_add_occupants. auto 10 with touches. Qed.

Lemma touches_Room_release_occupants self : touches_only self (Room_release_occupants self).
Proof. unfold Room_release_occupants. auto 10 with touches. Qed.

#[local] Hint Resolve touches_Room_set_max_capacity touches_Room_add_occupants
  touches_Room_release_occupants : touches.

Lemma touches_Book_execute command :
  touches_only (book_room command) (BookRoomCommand_execute command).
Proof. unfold BookRoomCommand_execute. auto 10 with touches. Qed.

Lemma touches_Cancel_execute command :
  touches_only (cancel_room command) (CancelBookingCommand_execute command).
Proof. unfold CancelBookingCommand_execute. auto 10 with touches. Qed.

(** X2. A call made on a room, or a command executed on it, that returns
    normally leaves every other room object exactly as it was, and leaves
    the registry and the singleton reference untouched. *)
Theorem room_call_touches_one_room (c : Call) (self : loc) (w w' : World) :
  room_of_call c = Some self →
  perform c w = Some (tt, w') →
  manager_heap w' = manager_heap w
  ∧ _instance w' = _instance w
  ∧ ∀ other, other ≠ self → room_heap w' !! other = room_heap w !! other.
Proof.
  intros Hroom Hrun.
  assert (touches_only self (perform c)) as Htouch; [|by eapply Htouch].
  destruct c; simpl in Hroom; try discriminate; injection Hroom as <-; simpl;
    auto 10 using touches_Book_execute, touches_Cancel_execute with touches.
Qed.

Lemma room_call_touches_one_room_witness :
  room_of_call (CallBook (mkBookRoomCommand 0%nat "09:00" 60)) = Some 0%nat
  ∧ perform (CallBook (mkBookRoomCommand 0%nat "09:00" 60)) office3
    = Some (tt, world_after (perform (CallBook (mkBookRoomCommand 0%nat "09:00" 60))) office3)
  ∧ room_heap (world_after (perform (CallBook (mkBookRoomCommand 0%nat "09:00" 60))) office3)
      !! 1%nat = room_heap office3 !! 1%nat.
Proof.
  assert (perform (CallBook (mkBookRoomCommand 0%nat "09:00" 60)) office3
    = Some (tt, world_after (perform (CallBook (mkBookRoomCommand 0%nat "09:00" 60))) office3))
    as Hrun by (vm_compute; reflexivity).
  split; [reflexivity|]. split; [exact Hrun|].
  eapply (room_call_touches_one_room
            (CallBook (mkBookRoomCommand 0%nat "09:00" 60)) 0%nat);
    [reflexivity | exact Hrun | discriminate].
Defined.

(** *** What no call undoes *)

Lemma persists_refl w : persists w w.
Proof. split; [|split]; [eauto | eauto | done]. Qed.

Lemma persists_trans w1 w2 w3 : persists w1 w2 → persists w2 w3 → persists w1 w3.
Proof.
  intros (Hr1 & Hm1 & Ho1) (Hr2 & Hm2 & Ho2). split; [|split].
  - intros l r Hl. destruct (Hr1 _ _ Hl) as (r1 & Hl1 & Hn1 & Hs1).
    destruct (Hr2 _ _ Hl1) as (r2 & Hl2 & Hn2 & Hs2).
    exists r2. split; [done|]. split; congruence.
  - intros l m Hl. destruct (Hm1 _ _ Hl) as (m1 & Hl1 & Hp1).
    destruct (Hm2 _ _ Hl1) as (m2 & Hl2 & Hp2).
    exists m2. split; [done|]. by etrans.
  - by etrans.
Qed.

Lemma monotone_ret {A} (a : A) : monotone (mret a).
Proof. intros w a' w' [= _ <-]. apply persists_refl. Qed.

Lemma monotone_bind {A B} (m : M A) (k : A → M B) :
  monotone m → (∀ a, monotone (k a)) → monotone (m ≫= k).
Proof.
  intros Hm Hk w b w' Hrun. rewrite bind_run in Hrun.
  destruct (m w) as [[a w1]|] eqn:Hmw; [|done].
  eapply persists_trans; [by eapply Hm | by eapply Hk].
Qed.

Lemma monotone_lift {A} (o : option A) : monotone (lift o).
Proof.
  intros w a w'. unfold lift. destruct o; [|done].
  intros [= _ <-]. apply persists_refl.
Qed.

Lemma monotone_print line : monotone (print line).
Proof.
  intros w a w' [= _ <-]. split; [|split]; simpl; [eauto | eauto |].
  by apply prefix_app_r.
Qed.

Lemma monotone_load_room self : monotone (load_room self).
Proof.
  intros w a w'. unfold load_room. destruct (_ !! _); [|done].
  intros [= _ <-]. apply persists_refl.
Qed.

Lemma monotone_load_manager self : monotone (load_manager self).
Proof.
  intros w a w'. unfold load_manager. destruct (_ !! _); [|done].
  intros [= _ <-]. apply persists_refl.
Qed.

Lemma monotone_for_each {A} (xs : list A) (body : A → M unit) :
  (∀ x, monotone (body x)) → monotone (for_each xs body).
Proof.
  intros Hbody. induction xs as [|x xs IH]; simpl.
  - apply monotone_ret.
  - apply monotone_bind; [apply Hbody | by intros _].
Qed.

Lemma monotone_if {A} (b : bool) (m1 m2 : M A) :
  monotone m1 → monotone m2 → monotone (if b then m1 else m2).
Proof. by destruct b. Qed.

(** Overwriting a room with one of the same number and sensors. *)
Lemma persists_set_room w self r r' :
  room_heap w !! self = Some r →
  room_number r' = room_number r → observers r' = observers r →
  persists w (set_room self r' w).
Proof.
  intros Hself Hn Hs. split; [|split]; simpl; [|eauto|done].
  intros l r0 Hl. destruct (decide (l = self)) as [->|Hne].
  - rewrite lookup_insert_eq. exists r'. split; [done|]. split; congruence.
  - rewrite lookup_insert_ne by done. eauto.
Qed.

Lemma set_occupied_inv self b w a w' :
  set_occupied self b w = Some (a, w') →
  ∃ r, room_heap w !! self = Some r ∧ w' = set_room self (with_occupied b r) w.
Proof.
  unfold set_occupied. rewrite bind_run. unfold load_room.
  destruct (room_heap w !! self) as [r|]; [|done].
  intros [= _ <-]. eauto.
Qed.

Lemma set_max_capacity_inv self n w a w' :
  set_max_capacity self n w = Some (a, w') →
  ∃ r, room_heap w !! self = Some r
       ∧ w' = set_room self (mkRoom (room_number r) (occupied r) n (observers r)) w.
Proof.
  unfold set_max_capacity. rewrite bind_run. unfold load_room.
  destruct (room_heap w !! self) as [r|]; [|done].
  intros [= _ <-]. eauto.
Qed.

Lemma monotone_set_occupied self b : monotone (set_occupied self b).
Proof. intros w a w' (r & Hr & ->)%set_occupied_inv. by eapply persists_set_room. Qed.

Lemma monotone_set_max_capacity self n : monotone (set_max_capacity self n).
Proof. intros w a w' (r & Hr & ->)%set_max_capacity_inv. by eapply persists_set_room. Qed.

Lemma monotone_Room_new n : monotone (Room_new n).
Proof.
  intros w a w' [= _ <-]. split; [|split]; simpl; [|eauto|done].
  intros l r Hl. exists r. split; [|done].
  rewrite lookup_insert_ne; [done|]. intros <-. by rewrite fresh_room_None in Hl.
Qed.

Lemma monotone_rooms_append self room : monotone (rooms_append self room).
Proof.
  intros w a w'. unfold rooms_append. rewrite bind_run. unfold load_manager.
  destruct (manager_heap w !! self) as [m|] eqn:Hm; [|done].
  intros [= _ <-]. split; [|split]; simpl; [eauto| |done].
  intros l m0 Hl. destruct (decide (l = self)) as [->|Hne].
  - rewrite lookup_insert_eq. eexists. split; [done|]. simpl.
    replace m0 with m by congruence. by apply prefix_app_r.
  - rewrite lookup_insert_ne by done. eauto.
Qed.

Lemma monotone_OfficeManager_new : monotone OfficeManager_new.
Proof.
  intros w a w'. unfold OfficeManager_new. destruct (_instance w).
  - intros [= _ <-]. apply persists_refl.
  - intros [= _ <-]. split; [|split]; simpl; [eauto| |done].
    intros l m Hl. exists m. split; [|done].
    rewrite lookup_insert_ne; [done|]. intros <-.
    pose proof (is_fresh (dom (manager_heap w))) as Hfresh.
    apply Hfresh, elem_of_dom. eauto.
Qed.

Create HintDb monotone discriminated.

#[local] Hint Resolve monotone_ret monotone_bind monotone_lift monotone_print
  monotone_load_room monotone_load_manager monotone_for_each monotone_if
  monotone_set_occupied monotone_set_max_capacity monotone_Room_new
  monotone_rooms_append monotone_OfficeManager_new : monotone.

Lemma monotone_Observer_update o b : monotone (Observer_update o b).
Proof. destruct o, b; apply monotone_print. Qed.

Lemma monotone_Room_is_occupied self : monotone (Room_is_occupied self).
Proof. unfold Room_is_occupied. auto with monotone. Qed.

Lemma monotone_Room_get_room_number self : monotone (Room_get_room_number self).
Proof. unfold Room_get_room_number. auto with monotone. Qed.

#[local] Hint Resolve monotone_Observer_update monotone_Room_is_occupied
  monotone_Room_get_room_number : monotone.

Lemma monotone_Room_notify_observers self : monotone (Room_notify_observers self).
Proof. unfold Room_notify_observers. auto 10 with monotone. Qed.

#[local] Hint Resolve monotone_Room_notify_observers : monotone.

Lemma monotone_Room_add_occupants self count : monotone (Room_add_occupants self count).
Proof. unfold Room_add_occupants. auto 10 with monotone. Qed.

Lemma monotone_Room_release_occupants self : monotone (Room_release_occupants self).
Proof. unfold Room_release_occupants. auto 10 with monotone. Qed.

#[local] Hint Resolve monotone_Room_add_occupants monotone_Room_release_occupants
  : monotone.

Lemma monotone_perform c : monotone (perform c).
Proof.
  destruct c; simpl;
    unfold Room_set_max_capacity, OfficeManager_configure_rooms,
      OfficeManager_get_room, BookRoomCommand_execute, CancelBookingCommand_execute;
    auto 12 with monotone.
Qed.

(** X3. Whatever calls are made, in whatever state: every room that
    existed still exists with the room number and the sensors it had,
    every registry still lists, in the same positions, the rooms it
    listed, and everything printed before is still the start of the
    output.  Nothing renumbers, removes or replaces a room. *)
Theorem calls_keep_rooms (calls : list Call) (w w' : World) :
  for_each calls perform w = Some (tt, w') → persists w w'.
Proof.
  assert (monotone (for_each calls perform)) as Hmono
    by (apply monotone_for_each, monotone_perform).
  apply Hmono.
Qed.

Lemma calls_keep_rooms_witness :
  for_each demo_calls perform office3
    = Some (tt, world_after (for_each demo_calls perform) office3)
  ∧ persists office3 (world_after (for_each demo_calls perform) office3).
Proof.
  assert (for_each demo_calls perform office3
          = Some (tt, world_after (for_each demo_calls perform) office3)) as Hrun
    by (vm_compute; reflexivity).
  split; [exact Hrun|]. exact (calls_keep_rooms _ _ _ Hrun).
Defined.

(** *** What every reachable state satisfies *)

Lemma well_formed_empty : well_formed empty_world.
Proof. split; simpl; intros *; rewrite ?lookup_empty; try done; by intros []. Qed.

(** Changing only the output keeps a state well formed. *)
Lemma well_formed_set_stdout w out : well_formed w → well_formed (set_stdout out w).
Proof. intros []. by split. Qed.

Lemma kwf_ret {A} (a : A) : keeps_well_formed (mret a).
Proof. by intros w a' w' Hwf [= _ <-]. Qed.

Lemma kwf_bind {A B} (m : M A) (k : A → M B) :
  keeps_well_formed m → (∀ a, keeps_well_formed (k a)) → keeps_well_formed (m ≫= k).
Proof.
  intros Hm Hk w b w' Hwf Hrun. rewrite bind_run in Hrun.
  destruct (m w) as [[a w1]|] eqn:Hmw; [|done].
  eapply Hk; [|exact Hrun]. by eapply Hm.
Qed.

Lemma kwf_lift {A} (o : option A) : keeps_well_formed (lift o).
Proof. intros w a w' Hwf. unfold lift. destruct o; [by intros [= _ <-]|done]. Qed.

Lemma kwf_print line : keeps_well_formed (print line).
Proof. intros w a w' Hwf [= _ <-]. by apply (well_formed_set_stdout w). Qed.

Lemma kwf_load_room self : keeps_well_formed (load_room self).
Proof.
  intros w a w' Hwf. unfold load_room. destruct (_ !! _); [by intros [= _ <-]|done].
Qed.

Lemma kwf_load_manager self : keeps_well_formed (load_manager self).
Proof.
  intros w a w' Hwf. unfold load_manager. destruct (_ !! _); [by intros [= _ <-]|done].
Qed.

Lemma kwf_for_each {A} (xs : list A) (body : A → M unit) :
  (∀ x, keeps_well_formed (body x)) → keeps_well_formed (for_each xs body).
Proof.
  intros Hbody. induction xs as [|x xs IH]; simpl.
  - apply kwf_ret.
  - apply kwf_bind; [apply Hbody | by intros _].
Qed.

Lemma kwf_if {A} (b : bool) (m1 m2 : M A) :
  keeps_well_formed m1 → keeps_well_formed m2 →
  keeps_well_formed (if b then m1 else m2).
Proof. by destruct b. Qed.

(** Overwriting a room with one that has the constructor's sensors and a
    capacity that is not negative. *)
Lemma well_formed_set_room w self r r' :
  well_formed w → room_heap w !! self = Some r →
  0 ≤ max_capacity r' → observers r' = [AC; Lights] →
  well_formed (set_room self r' w).
Proof.
  intros [] Hself Hcap Hobs. split; simpl; try done.
  - intros l r0. destruct (decide (l = self)) as [->|Hne].
    + rewrite lookup_insert_eq. by intros [= <-].
    + rewrite lookup_insert_ne by done. eauto.
  - intros l r0. destruct (decide (l = self)) as [->|Hne].
    + rewrite lookup_insert_eq. by intros [= <-].
    + rewrite lookup_insert_ne by done. eauto.
  - intros l m x Hm Hx. destruct (decide (x = self)) as [->|Hne].
    + rewrite lookup_insert_eq. eauto.
    + rewrite lookup_insert_ne by done. eauto.
Qed.

Lemma kwf_set_occupied self b : keeps_well_formed (set_occupied self b).
Proof.
  intros w a w' Hwf (r & Hr & ->)%set_occupied_inv.
  eapply well_formed_set_room; [done..| |]; simpl.
  - by eapply wf_capacity.
  - by eapply wf_observers.
Qed.

Lemma kwf_Room_set_max_capacity self n : keeps_well_formed (Room_set_max_capacity self n).
Proof.
  unfold Room_set_max_capacity. destruct (n >? 0) eqn:Hn; [|apply kwf_print].
  apply Z.gtb_lt in Hn. apply kwf_bind.
  - intros w a w' Hwf (r & Hr & ->)%set_max_capacity_inv.
    eapply well_formed_set_room; [done..| |]; simpl; [lia|].
    by eapply wf_observers.
  - intros _. apply kwf_bind; [apply kwf_load_room|]. intros r. apply kwf_print.
Qed.

Lemma kwf_Room_new n : keeps_well_formed (Room_new n).
Proof.
  intros w a w' [] [= _ <-]. split; simpl; try done.
  - intros l r. destruct (decide (l = fresh (dom (room_heap w)))) as [->|Hne].
    + rewrite lookup_insert_eq. by intros [= <-].
    + rewrite lookup_insert_ne by done. eauto.
  - intros l r. destruct (decide (l = fresh (dom (room_heap w)))) as [->|Hne].
    + rewrite lookup_insert_eq. by intros [= <-].
    + rewrite lookup_insert_ne by done. eauto.
  - intros l m x Hm Hx. destruct (decide (x = fresh (dom (room_heap w)))) as [->|Hne].
    + rewrite lookup_insert_eq. eauto.
    + rewrite lookup_insert_ne by done. eauto.
Qed.

(** The body of the loop of [configure_rooms]: the room appended is a new
    object, so the list stays free of repetitions. *)
Lemma kwf_configure_body self i :
  keeps_well_formed (room ← Room_new i; rooms_append self room).
Proof.
  intros w a w' Hwf. rewrite bind_run. unfold Room_new. simpl.
  unfold rooms_append. rewrite bind_run. unfold load_manager. simpl.
  destruct (manager_heap w !! self) as [m|] eqn:Hm; [|done].
  intros [= _ <-]. set (room := fresh (dom (room_heap w))).
  assert (room ∉ rooms m) as Hnew.
  { intros Hin. destruct (wf_rooms_live w Hwf _ _ _ Hm Hin) as [r Hr].
    unfold room in Hr. by rewrite fresh_room_None in Hr. }
  destruct Hwf. split; simpl.
  - intros l r. destruct (decide (l = room)) as [->|Hne].
    + rewrite lookup_insert_eq. by intros [= <-].
    + rewrite lookup_insert_ne by done. eauto.
  - intros l r. destruct (decide (l = room)) as [->|Hne].
    + rewrite lookup_insert_eq. by intros [= <-].
    + rewrite lookup_insert_ne by done. eauto.
  - intros l m0. destruct (decide (l = self)) as [->|Hne].
    + rewrite lookup_insert_eq. intros [= <-]. simpl.
      apply NoDup_app. split; [eauto|]. split; [|apply NoDup_singleton].
      intros x Hx ->%list_elem_of_singleton. done.
    + rewrite lookup_insert_ne by done. eauto.
  - intros l m0 x. destruct (decide (l = self)) as [->|Hne].
    + rewrite lookup_insert_eq. intros [= <-]. simpl.
      intros [Hx| ->%list_elem_of_singleton]%elem_of_app.
      * destruct (decide (x = room)) as [->|Hxne]; [done|].
        rewrite lookup_insert_ne by done. eauto.
      * rewrite lookup_insert_eq. eauto.
    + rewrite lookup_insert_ne by done. intros Hm0 Hx.
      destruct (decide (x = room)) as [->|Hxne].
      * rewrite lookup_insert_eq. eauto.
      * rewrite lookup_insert_ne by done. eauto.
  - intros l Hl. apply wf_single0. destruct (decide (l = self)) as [->|Hne]; [eauto|].
    by rewrite lookup_insert_ne in Hl.
  - intros l Hl. destruct (decide (l = self)) as [->|Hne].
    + rewrite lookup_insert_eq. eauto.
    + rewrite lookup_insert_ne by done. eauto.
Qed.

Lemma kwf_OfficeManager_new : keeps_well_formed OfficeManager_new.
Proof.
  intros w a w' Hwf. unfold OfficeManager_new.
  destruct (_instance w) as [self|] eqn:Hinst; [by intros [= _ <-]|].
  intros [= _ <-]. set (self := fresh (dom (manager_heap w))).
  assert (∀ l, manager_heap w !! l = None) as Hnone.
  { intros l. destruct (manager_heap w !! l) eqn:Hl; [|done].
    pose proof (wf_single w Hwf l (mk_is_Some _ _ Hl)). congruence. }
  destruct Hwf. split; simpl; try done.
  - intros l m. destruct (decide (l = self)) as [->|Hne].
    + rewrite lookup_insert_eq. intros [= <-]. apply NoDup_nil_2.
    + rewrite lookup_insert_ne by done. eauto.
  - intros l m x. destruct (decide (l = self)) as [->|Hne].
    + rewrite lookup_insert_eq. intros [= <-]. by intros ?%elem_of_nil.
    + rewrite lookup_insert_ne by done. eauto.
  - intros l. destruct (decide (l = self)) as [->|Hne]; [done|].
    rewrite lookup_insert_ne by done. rewrite Hnone. by intros [].
  - intros l [= <-]. rewrite lookup_insert_eq. eauto.
Qed.

Create HintDb kwf discriminated.

#[local] Hint Resolve kwf_ret kwf_bind kwf_lift kwf_print kwf_load_room
  kwf_load_manager kwf_for_each kwf_if kwf_set_occupied kwf_Room_set_max_capacity
  kwf_Room_new kwf_configure_body kwf_OfficeManager_new : kwf.

Lemma kwf_Observer_update o b : keeps_well_formed (Observer_update o b).
Proof. destruct o, b; apply kwf_print. Qed.

Lemma kwf_Room_is_occupied self : keeps_well_formed (Room_is_occupied self).
Proof. unfold Room_is_occupied. auto with kwf. Qed.

Lemma kwf_Room_get_room_number self : keeps_well_formed (Room_get_room_number self).
Proof. unfold Room_get_room_number. auto with kwf. Qed.

#[local] Hint Resolve kwf_Observer_update kwf_Room_is_occupied
  kwf_Room_get_room_number : kwf.

Lemma kwf_Room_notify_observers self : keeps_well_formed (Room_notify_observers self).
Proof. unfold Room_notify_observers. auto 10 with kwf. Qed.

#[local] Hint Resolve kwf_Room_notify_observers : kwf.

Lemma kwf_Room_add_occupants self count : keeps_well_formed (Room_add_occupants self count).
Proof. unfold Room_add_occupants. auto 10 with kwf. Qed.

Lemma kwf_Room_release_occupants self : keeps_well_formed (Room_release_occupants self).
Proof. unfold Room_release_occupants. auto 10 with kwf. Qed.

#[local] Hint Resolve kwf_Room_add_occupants kwf_Room_release_occupants : kwf.

Lemma kwf_perform c : keeps_well_formed (perform c).
Proof.
  destruct c; simpl;
    unfold OfficeManager_configure_rooms, OfficeManager_get_room,
      BookRoomCommand_execute, CancelBookingCommand_execute;
    auto 12 with kwf.
Qed.

Lemma reachable_well_formed w : reachable w → well_formed w.
Proof.
  intros [calls Hrun].
  eapply (kwf_for_each calls perform kwf_perform); [apply well_formed_empty|done].
Qed.

Lemma script_world_run : for_each script_calls perform empty_world = Some (tt, script_world).
Proof. vm_compute. reflexivity. Qed.

(** X4. In every state reached from the initial one by calls of the
    script's methods, every room has a capacity that is not negative and
    exactly the two sensors [AC(), Lights()], in this order. *)
Theorem reachable_rooms_capacity_and_sensors (calls : list Call) (w : World)
    (l : loc) (r : Room) :
  for_each calls perform empty_world = Some (tt, w) →
  room_heap w !! l = Some r →
  0 ≤ max_capacity r ∧ observers r = [AC; Lights].
Proof.
  intros Hrun Hl. assert (well_formed w) as Hwf by (apply reachable_well_formed; by exists calls).
  split; [by eapply wf_capacity | by eapply wf_observers].
Qed.

Lemma reachable_rooms_capacity_and_sensors_witness :
  for_each script_calls perform empty_world = Some (tt, script_world)
  ∧ room_heap script_world !! 1%nat = Some (mkRoom 2 true 0 [AC; Lights])
  ∧ 0 ≤ max_capacity (mkRoom 2 true 0 [AC; Lights])
  ∧ observers (mkRoom 2 true 0 [AC; Lights]) = [AC; Lights].
Proof.
  assert (room_heap script_world !! 1%nat = Some (mkRoom 2 true 0 [AC; Lights])) as Hl
    by (vm_compute; reflexivity).
  split; [exact script_world_run|]. split; [exact Hl|].
  exact (reachable_rooms_capacity_and_sensors _ _ _ _ script_world_run Hl).
Defined.

(** What a successful [get_room] tells: the world is unchanged and the
    room is the one at that position of the list. *)
Lemma get_room_Some_inv self k w m room w' :
  manager_heap w !! self = Some m →
  OfficeManager_get_room self k w = Some (Some room, w') →
  w' = w ∧ 1 ≤ k ≤ Py.len (rooms m) ∧ rooms m !! Z.to_nat (k - 1) = Some room.
Proof.
  intros Hm. unfold OfficeManager_get_room.
  rewrite bind_run, (load_manager_run _ _ _ Hm). cbv beta iota.
  destruct (0 <? k) eqn:H0; [destruct (k <=? Py.len (rooms m)) eqn:H1|]; simpl; try done.
  apply Z.ltb_lt in H0. apply Z.leb_le in H1.
  rewrite bind_run. unfold lift. rewrite getitem_in_range by lia.
  destruct (rooms m !! Z.to_nat (k - 1)) as [x|] eqn:Hx; [|done].
  intros [= <- <-]. split; [done|]. split; [lia|done].
Qed.

(** X5. In every reachable state, the rooms that [get_room] returns for
    two different room numbers are two different objects, and each is a
    live [Room]: acting on one of them cannot act on the other, and no
    method called on them fails for want of an object. *)
Theorem reachable_get_room_distinct (calls : list Call) (w : World) (self : loc)
    (j k : Z) (a b : loc) (wa wb : World) :
  for_each calls perform empty_world = Some (tt, w) →
  OfficeManager_get_room self j w = Some (Some a, wa) →
  OfficeManager_get_room self k w = Some (Some b, wb) →
  j ≠ k →
  a ≠ b ∧ is_Some (room_heap w !! a) ∧ is_Some (room_heap w !! b).
Proof.
  intros Hrun Ha Hb Hjk.
  assert (well_formed w) as Hwf by (apply reachable_well_formed; by exists calls).
  destruct (manager_heap w !! self) as [m|] eqn:Hm.
  2:{ unfold OfficeManager_get_room in Ha. rewrite bind_run in Ha.
      unfold load_manager in Ha. by rewrite Hm in Ha. }
  destruct (get_room_Some_inv _ _ _ _ _ _ Hm Ha) as (_ & Hj & Hla).
  destruct (get_room_Some_inv _ _ _ _ _ _ Hm Hb) as (_ & Hk & Hlb).
  split; [|split].
  - intros <-.
    pose proof (NoDup_lookup _ _ _ _ (wf_rooms_distinct w Hwf _ _ Hm) Hla Hlb). lia.
  - eapply wf_rooms_live; [done..|]. by eapply list_elem_of_lookup_2.
  - eapply wf_rooms_live; [done..|]. by eapply list_elem_of_lookup_2.
Qed.

Lemma reachable_get_room_distinct_witness :
  for_each script_calls perform empty_world = Some (tt, script_world)
  ∧ OfficeManager_get_room 0%nat 1 script_world = Some (Some 0%nat, script_world)
  ∧ OfficeManager_get_room 0%nat 4 script_world = Some (Some 3%nat, script_world)
  ∧ 1 ≠ 4
  ∧ 0%nat ≠ 3%nat
  ∧ is_Some (room_heap script_world !! 0%nat)
  ∧ is_Some (room_heap script_world !! 3%nat).
Proof.
  assert (OfficeManager_get_room 0%nat 1 script_world = Some (Some 0%nat, script_world))
    as Ha by (vm_compute; reflexivity).
  assert (OfficeManager_get_room 0%nat 4 script_world = Some (Some 3%nat, script_world))
    as Hb by (vm_compute; reflexivity).
  assert (1 ≠ 4) as Hne by lia.
  split; [exact script_world_run|]. split; [exact Ha|]. split; [exact Hb|].
  split; [exact Hne|].
  exact (reachable_get_room_distinct _ _ _ _ _ _ _ _ _ script_world_run Ha Hb Hne).
Defined.

(** X6. In every reachable state at most one [OfficeManager] object
    exists, and if one exists it is the one [OfficeManager._instance]
    refers to. *)
Theorem reachable_one_manager (calls : list Call) (w : World) (l1 l2 : loc)
    (m1 m2 : OfficeManager) :
  for_each calls perform empty_world = Some (tt, w) →
  manager_heap w !! l1 = Some m1 →
  manager_heap w !! l2 = Some m2 →
  l1 = l2 ∧ _instance w = Some l1.
Proof.
  intros Hrun H1 H2.
  assert (well_formed w) as Hwf by (apply reachable_well_formed; by exists calls).
  pose proof (wf_single w Hwf l1 (mk_is_Some _ _ H1)) as Hi1.
  pose proof (wf_single w Hwf l2 (mk_is_Some _ _ H2)) as Hi2.
  split; [congruence|done].
Qed.

Lemma reachable_one_manager_witness :
  for_each script_calls perform empty_world = Some (tt, script_world)
  ∧ is_Some (manager_heap script_world !! 0%nat)
  ∧ _instance script_world = Some 0%nat.
Proof.
  split; [exact script_world_run|].
  destruct (manager_heap script_world !! 0%nat) as [m|] eqn:Hm;
    [|vm_compute in Hm; discriminate].
  split; [eauto|].
  exact (proj2 (reachable_one_manager _ _ _ _ _ _ script_world_run Hm Hm)).
Defined.

(** *** Configuring rooms *)

Lemma get_room_at self w m (i : nat) room :
  manager_heap w !! self = Some m →
  rooms m !! i = Some room →
  OfficeManager_get_room self (Z.of_nat i + 1) w = Some (Some room, w).
Proof.
  intros Hm Hi. apply lookup_lt_Some in Hi as Hlt. unfold OfficeManager_get_room.
  rewrite bind_run, (load_manager_run _ _ _ Hm). cbv beta iota.
  replace (0 <? Z.of_nat i + 1) with true by (symmetry; apply Z.ltb_lt; lia).
  replace (Z.of_nat i + 1 <=? Py.len (rooms m)) with true
    by (symmetry; apply Z.leb_le; unfold Py.len; lia).
  simpl. rewrite bind_run. unfold lift.
  rewrite getitem_in_range by (unfold Py.len; lia).
  replace (Z.to_nat (Z.of_nat i + 1 - 1)) with i by lia. by rewrite Hi.
Qed.

(** The loop of [configure_rooms], with the objects it creates: one new
    room per number, appended in order. *)
Lemma configure_loop_rooms self numbers : ∀ w m,
  manager_heap w !! self = Some m →
  ∃ w' news,
    for_each numbers (λ i, room ← Room_new i; rooms_append self room) w = Some (tt, w')
    ∧ manager_heap w' = <[self := mkOfficeManager (rooms m ++ news)]> (manager_heap w)
    ∧ Forall2 (λ l n, room_heap w !! l = None
                      ∧ room_heap w' !! l = Some (mkRoom n false 0 [AC; Lights]))
              news numbers
    ∧ (∀ l r, room_heap w !! l = Some r → room_heap w' !! l = Some r)
    ∧ _instance w' = _instance w
    ∧ stdout w' = stdout w.
Proof.
  induction numbers as [|i numbers IH]; intros w m Hm; simpl.
  - exists w, []. rewrite app_nil_r. split; [done|]. split.
    { destruct w, m; simpl in *. by rewrite insert_id. }
    split; [constructor|]. done.
  - set (room := fresh (dom (room_heap w))).
    set (w1 := mkWorld (<[room := mkRoom i false 0 [AC; Lights]]> (room_heap w))
                       (<[self := mkOfficeManager (rooms m ++ [room])]> (manager_heap w))
                       (_instance w) (stdout w)).
    assert (manager_heap w1 !! self = Some (mkOfficeManager (rooms m ++ [room]))) as Hm1
      by apply lookup_insert_eq.
    assert (∀ l r, room_heap w !! l = Some r → room_heap w1 !! l = Some r) as Hkeep.
    { intros l r Hl. simpl. rewrite lookup_insert_ne; [done|].
      intros <-. unfold room in Hl. by rewrite fresh_room_None in Hl. }
    destruct (IH w1 _ Hm1) as (w' & news & Hrun & Hmgr & Hnew & Hold & Hinst & Hout).
    exists w', (room :: news). split.
    { rewrite bind_run, bind_run. unfold Room_new. simpl.
      unfold rooms_append. rewrite bind_run. unfold load_manager. simpl.
      rewrite Hm. exact Hrun. }
    split. { rewrite Hmgr. simpl. by rewrite insert_insert_eq, <- app_assoc. }
    split.
    { constructor.
      - split; [apply fresh_room_None|]. apply Hold. apply lookup_insert_eq.
      - eapply Forall2_impl; [exact Hnew|]. intros l n [Hnone Hsome]. split; [|done].
        destruct (room_heap w !! l) as [r|] eqn:Hl; [|done].
        by rewrite (Hkeep _ _ Hl) in Hnone. }
    split; [|done]. intros l r Hl. by apply Hold, Hkeep.
Qed.

Lemma configure_rooms_nonpositive (w : World) (self : loc) (count : Z) :
  count ≤ 0 →
  OfficeManager_configure_rooms self count w
  = Some (tt, set_stdout (stdout w ++ [configured_line count]) w).
Proof.
  intros Hcount. unfold OfficeManager_configure_rooms, Py.range2.
  by rewrite seqZ_nil by lia.
Qed.

(** X1. [configure_rooms(count)] on a registry, whatever rooms it already
    lists, returns normally, appends [max(count, 0)] rooms and prints that
    the office was configured with [count] rooms.  Every room listed
    before is still returned, untouched, for the number it was returned
    for; the [k]-th appended room, returned by
    [get_room(len(existing) + k)], is a new object, unoccupied, of
    capacity 0, and its room number is [k].  With [count <= 0] no object
    changes at all, and the line is printed all the same. *)
Theorem configure_rooms_appends (w : World) (self : loc) (m : OfficeManager) (count : Z) :
  manager_heap w !! self = Some m →
  ∃ w' m',
    OfficeManager_configure_rooms self count w = Some (tt, w')
    ∧ manager_heap w' !! self = Some m'
    ∧ Py.len (rooms m') = Py.len (rooms m) + Z.max count 0
    ∧ stdout w' = stdout w ++ [configured_line count]
    ∧ (∀ j room, 1 ≤ j ≤ Py.len (rooms m) →
         OfficeManager_get_room self j w = Some (Some room, w) →
         OfficeManager_get_room self j w' = Some (Some room, w')
         ∧ ∀ r, room_heap w !! room = Some r → room_heap w' !! room = Some r)
    ∧ (∀ k, 1 ≤ k ≤ count →
         ∃ room, OfficeManager_get_room self (Py.len (rooms m) + k) w'
                   = Some (Some room, w')
                 ∧ room_heap w !! room = None
                 ∧ room_heap w' !! room = Some (mkRoom k false 0 [AC; Lights]))
    ∧ (count ≤ 0 → room_heap w' = room_heap w ∧ manager_heap w' = manager_heap w).
Proof.
  intros Hm.
  assert (∀ w', count ≤ 0 → OfficeManager_configure_rooms self count w = Some (tt, w') →
          room_heap w' = room_heap w ∧ manager_heap w' = manager_heap w) as Hnone.
  { intros w' Hle. rewrite configure_rooms_nonpositive by done. by intros [= <-]. }
  revert Hnone. unfold OfficeManager_configure_rooms, Py.range2.
  replace (count + 1 - 1) with count by lia.
  destruct (configure_loop_rooms self (seqZ 1 count) w m Hm)
    as (w1 & news & Hrun & Hmgr & Hnew & Hold & Hinst & Hout).
  set (w' := set_stdout (stdout w1 ++ [configured_line count]) w1).
  assert (manager_heap w' !! self = Some (mkOfficeManager (rooms m ++ news))) as Hm'
    by (simpl; rewrite Hmgr; apply lookup_insert_eq).
  apply Forall2_length in Hnew as Hlen. rewrite length_seqZ in Hlen.
  intros Hnone.
  exists w', (mkOfficeManager (rooms m ++ news)).
  rewrite bind_run, Hrun in Hnone |- *.
  split; [done|]. split; [done|]. split; [|split; [|split; [|split]]].
  - simpl. unfold Py.len. rewrite length_app. lia.
  - simpl. by rewrite Hout.
  - intros j room Hj Hget.
    destruct (get_room_Some_inv _ _ _ _ _ _ Hm Hget) as (_ & _ & Hroom).
    split; [|intros r Hr; simpl; by apply Hold].
    replace j with (Z.of_nat (Z.to_nat (j - 1)) + 1) by lia.
    eapply get_room_at; [exact Hm'|]. simpl. by apply lookup_app_l_Some.
  - intros k Hk.
    destruct (lookup_lt_is_Some_2 news (Z.to_nat (k - 1))) as [room Hroom]; [lia|].
    assert (seqZ 1 count !! Z.to_nat (k - 1) = Some k) as Hnum
      by (apply lookup_seqZ; lia).
    destruct (Forall2_lookup_lr _ _ _ _ _ _ Hnew Hroom Hnum) as [Hnone' Hsome].
    exists room. split; [|done].
    replace (Py.len (rooms m) + k)
      with (Z.of_nat (length (rooms m) + Z.to_nat (k - 1)) + 1)
      by (unfold Py.len; lia).
    eapply get_room_at; [exact Hm'|]. simpl.
    rewrite lookup_app_r by lia. by replace (_ + _ - _)%nat with (Z.to_nat (k - 1)) by lia.
  - intros Hle. by apply Hnone.
Qed.

Lemma configure_rooms_appends_witness :
  manager_heap office3 !! 0%nat = Some (mkOfficeManager [0%nat; 1%nat; 2%nat])
  ∧ (∃ w', OfficeManager_configure_rooms 0%nat 2 office3 = Some (tt, w')
           ∧ (∃ room, OfficeManager_get_room 0%nat 5 w' = Some (Some room, w')
                      ∧ room_heap office3 !! room = None
                      ∧ room_heap w' !! room = Some (mkRoom 2 false 0 [AC; Lights])))
  ∧ (∃ w', OfficeManager_configure_rooms 0%nat (-3) office3 = Some (tt, w')
           ∧ room_heap w' = room_heap office3
           ∧ stdout w' = stdout office3 ++ ["Office configured with -3 meeting rooms."]).
Proof.
  split; [reflexivity|]. split.
  - destruct (configure_rooms_appends office3 0%nat (mkOfficeManager [0%nat; 1%nat; 2%nat]) 2)
      as (w' & m' & Hrun & _ & _ & _ & _ & Hnew & _); [reflexivity|].
    exists w'. split; [exact Hrun|]. apply (Hnew 2). lia.
  - destruct (configure_rooms_appends office3 0%nat (mkOfficeManager [0%nat; 1%nat; 2%nat]) (-3))
      as (w' & m' & Hrun & _ & _ & Hout & _ & _ & Hsame); [reflexivity|].
    exists w'. split; [exact Hrun|]. split; [apply Hsame; lia|exact Hout].
Defined.

(** *** Booking and cancelling *)

(** X7. On a room that is not occupied, executing a [BookRoomCommand] and
    then a [CancelBookingCommand] for it returns normally and leaves every
    object as it was before the booking: only the output has grown, by
    the booking line, what [add_occupants(2)] prints, what
    [release_occupants()] prints and the cancellation line.  On an
    occupied room, cancelling and then booking restores the objects in
    the same way. *)
Theorem book_cancel_round_trip (w : World) (room : loc) (r : Room)
    (start : string) (minutes : Z) :
  room_heap w !! room = Some r →
  (occupied r = false →
     ∃ w', (BookRoomCommand_execute (mkBookRoomCommand room start minutes) ;;
            CancelBookingCommand_execute (mkCancelBookingCommand room)) w = Some (tt, w')
           ∧ room_heap w' = room_heap w
           ∧ manager_heap w' = manager_heap w
           ∧ _instance w' = _instance w
           ∧ stdout w' = stdout w
               ++ [booked_line r (mkBookRoomCommand room start minutes);
                   add_occupants_line r 2]
               ++ ((λ o, update_line o true) <$> observers r)
               ++ [release_occupants_line r]
               ++ ((λ o, update_line o false) <$> observers r)
               ++ [cancelled_line r])
  ∧ (occupied r = true →
     ∃ w', (CancelBookingCommand_execute (mkCancelBookingCommand room) ;;
            BookRoomCommand_execute (mkBookRoomCommand room start minutes)) w = Some (tt, w')
           ∧ room_heap w' = room_heap w
           ∧ manager_heap w' = manager_heap w
           ∧ _instance w' = _instance w
           ∧ stdout w' = stdout w
               ++ [release_occupants_line r]
               ++ ((λ o, update_line o false) <$> observers r)
               ++ [cancelled_line r;
                   booked_line r (mkBookRoomCommand room start minutes);
                   add_occupants_line r 2]
               ++ ((λ o, update_line o true) <$> observers r)).
Proof.
  intros Hroom. split; intros Hocc.
  - rewrite bind_run.
    erewrite BookRoomCommand_execute_free by first [exact Hroom | exact Hocc].
    erewrite Room_add_occupants_run by room_lookup.
    unfold CancelBookingCommand_execute. mrun.
    change (occupied (with_occupied (2 >=? 2) r)) with true. cbv iota.
    rewrite bind_run.
    erewrite Room_release_occupants_run by room_lookup. mrun.
    eexists. split; [reflexivity|]. simpl.
    split; [|split; [done|split; [done|]]].
    + rewrite insert_insert_eq. apply insert_id.
      rewrite Hroom. f_equal. destruct r; simpl in *. by subst.
    + rewrite <- !app_assoc. reflexivity.
  - rewrite bind_run. unfold CancelBookingCommand_execute. mrun. rewrite Hocc.
    rewrite bind_run.
    erewrite Room_release_occupants_run by room_lookup. mrun.
    erewrite BookRoomCommand_execute_free by first [room_lookup | reflexivity].
    erewrite Room_add_occupants_run by room_lookup.
    eexists. split; [reflexivity|]. simpl.
    split; [|split; [done|split; [done|]]].
    + rewrite insert_insert_eq. apply insert_id.
      rewrite Hroom. f_equal. destruct r; simpl in *. by subst.
    + rewrite <- !app_assoc. reflexivity.
Qed.

Lemma book_cancel_round_trip_witness :
  room_heap free_world !! 0%nat = Some free_room
  ∧ occupied free_room = false
  ∧ ∃ w', (BookRoomCommand_execute (mkBookRoomCommand 0%nat "09:00" 60) ;;
           CancelBookingCommand_execute (mkCancelBookingCommand 0%nat)) free_world
          = Some (tt, w')
          ∧ room_heap w' = room_heap free_world
          ∧ stdout w' = [ "Room 1 booked from 09:00 for 60 minutes.";
                          "Room 1 is now occupied by 2 persons.";
                          "AC turned on."; "Lights turned on.";
                          "Room 1 is now unoccupied.";
                          "AC turned off."; "Lights turned off.";
                          "Booking for Room 1 cancelled successfully." ].
Proof.
  split; [reflexivity|]. split; [reflexivity|].
  destruct (book_cancel_round_trip free_world 0%nat free_room "09:00" 60)
    as [Hfree _]; [reflexivity|].
  destruct Hfree as (w' & Hrun & Hrooms & _ & _ & Hout); [reflexivity|].
  exists w'. split; [exact Hrun|]. split; [exact Hrooms|].
  rewrite Hout. vm_compute. reflexivity.
Defined.

(** *** Occupancy after a history of calls *)

Lemma occupancy_call_run (self : loc) (c : OccupancyCall) (w : World) (r : Room) :
  room_heap w !! self = Some r →
  ∃ w', occupancy_call self c w = Some (tt, w')
        ∧ room_heap w' = <[self := with_occupied (records_occupied c) r]> (room_heap w)
        ∧ manager_heap w' = manager_heap w
        ∧ length (stdout w') = (length (stdout w) + S (length (observers r)))%nat.
Proof.
  intros Hr. destruct c as [count|]; simpl.
  - rewrite (Room_add_occupants_run _ _ _ _ Hr). eexists. split; [done|].
    simpl. rewrite length_app. simpl. by rewrite length_fmap.
  - rewrite (Room_release_occupants_run _ _ _ Hr). eexists. split; [done|].
    simpl. rewrite length_app. simpl. by rewrite length_fmap.
Qed.

(** X8. After any sequence of [add_occupants] and [release_occupants]
    calls on a room, all of which return normally, the room is as it was
    at the start except that it is occupied exactly if the last call of
    the sequence was an [add_occupants] with a count of at least 2: the
    calls before the last one leave no trace in the room, no other object
    has changed, and each call has printed one line of its own and one
    line per sensor. *)
Theorem occupancy_follows_last_call (self : loc) (history : list OccupancyCall)
    (c : OccupancyCall) (w : World) (r : Room) :
  room_heap w !! self = Some r →
  ∃ w', for_each (history ++ [c]) (occupancy_call self) w = Some (tt, w')
        ∧ room_heap w' = <[self := with_occupied (records_occupied c) r]> (room_heap w)
        ∧ manager_heap w' = manager_heap w
        ∧ length (stdout w')
          = (length (stdout w) + S (length history) * S (length (observers r)))%nat.
Proof.
  revert w r. induction history as [|c0 history IH]; intros w r Hr; simpl.
  - destruct (occupancy_call_run self c w r Hr) as (w' & Hrun & Hrooms & Hmgr & Hout).
    exists w'. rewrite bind_run, Hrun. split; [done|]. split; [done|].
    split; [done|]. lia.
  - destruct (occupancy_call_run self c0 w r Hr) as (w1 & Hrun1 & Hrooms1 & Hmgr1 & Hout1).
    destruct (IH w1 (with_occupied (records_occupied c0) r)) as (w' & Hrun & Hrooms & Hmgr & Hout).
    { rewrite Hrooms1. apply lookup_insert_eq. }
    exists w'. rewrite bind_run, Hrun1. split; [exact Hrun|].
    split; [by rewrite Hrooms, Hrooms1, insert_insert_eq|].
    split; [congruence|]. rewrite Hout, Hout1. simpl. lia.
Qed.

Lemma occupancy_follows_last_call_witness :
  room_heap free_world !! 0%nat = Some free_room
  ∧ ∃ w', for_each ([AddOccupants 5; ReleaseOccupants; AddOccupants 0] ++ [AddOccupants 2])
            (occupancy_call 0%nat) free_world = Some (tt, w')
          ∧ room_heap w' = <[0%nat := with_occupied true free_room]> (room_heap free_world)
          ∧ length (stdout w') = 12%nat.
Proof.
  split; [reflexivity|].
  destruct (occupancy_follows_last_call 0%nat
              [AddOccupants 5; ReleaseOccupants; AddOccupants 0] (AddOccupants 2)
              free_world free_room) as (w' & Hrun & Hrooms & _ & Hout); [reflexivity|].
  exists w'. split; [exact Hrun|]. split; [exact Hrooms|]. exact Hout.
Defined.

End OfficeLaws.

(** ** KananGadhia.py: the strategy context, and the two sorts on a part
    of an array *)

Module SortingContext.

Import Strategy.

(** The strategy classes: the interface [SortingStrategy], whose [sort]
    does nothing, and its two subclasses. *)
Inductive SortingStrategy := BaseStrategy | BubbleSort | QuickSort.

(** Dynamic dispatch of [strategy.sort(array)], called with [depth]
    frames free: the lines printed and how the call ends. *)
Definition SortingStrategy_sort (depth : nat) (strategy : SortingStrategy)
    (array : list Z) : list string * result (list Z) :=
  match strategy with
  | BaseStrategy =>
      match depth with
      | O => ([], Raises RecursionError)
      | S _ => ([], Returns array)
      end
  | BubbleSort => BubbleSort_sort depth array
  | QuickSort => QuickSort_sort depth array
  end.

(** A [SortContext] object: its [strategy] attribute, [None] until set. *)
Record SortContext := mkSortContext {
  strategy : option SortingStrategy
}.

(** [SortContext()] *)
Definition SortContext_new : SortContext := mkSortContext None.

Definition set_strategy (self : SortContext) (strategy : SortingStrategy) : SortContext :=
  mkSortContext (Some strategy).

(** [execute_strategy(array)], called with [depth] frames free; the call
    of [sort] is made from inside it.  With no strategy set, [None.sort]
    raises [AttributeError]. *)
Definition execute_strategy (depth : nat) (self : SortContext) (array : list Z)
  : list string * result (list Z) :=
  match depth with
  | O => ([], Raises RecursionError)
  | S depth' =>
      match strategy self with
      | Some s => SortingStrategy_sort depth' s array
      | None => ([], Raises AttributeError)
      end
  end.

(** The elements of [array] at positions [low], ..., [high]. *)
Definition segment (array : list Z) (low high : Z) : list Z :=
  take (Z.to_nat (high + 1 - low)) (drop (Z.to_nat low) array).

(** *** Parts of an array *)

Lemma segment_split (array : list Z) (l n : nat) :
  array = take l array ++ take n (drop l array) ++ drop (l + n) array.
Proof.
  rewrite <- (take_drop l array) at 1. f_equal.
  rewrite <- (take_drop n (drop l array)) at 1. f_equal. apply drop_drop.
Qed.

Lemma len_take (array : list Z) (l : Z) :
  0 ≤ l ≤ Py.len array → Py.len (take (Z.to_nat l) array) = l.
Proof. intros Hl. unfold Py.len in *. rewrite length_take. lia. Qed.

Lemma len_segment (array : list Z) (low high : Z) :
  0 ≤ low → low ≤ high + 1 → high < Py.len array →
  Py.len (segment array low high) = high + 1 - low.
Proof.
  intros H0 Hlh Hh. unfold segment, Py.len in *.
  rewrite length_take, length_drop. lia.
Qed.

(** X9. [partition(array, low, high)] on a segment inside the array
    returns normally.  Afterwards the array is: what was before [low],
    untouched; then values not above the pivot [array[high]]; then the
    pivot, at the position returned; then values above the pivot; then
    what was after [high], untouched.  The values around the pivot are
    those that were in [low..high-1], rearranged. *)
Theorem partition_splits_segment (array : list Z) (low high pivot : Z) :
  0 ≤ low → low ≤ high →
  array !! Z.to_nat high = Some pivot →
  ∃ lo hi,
    partition array low high
    = Some (take (Z.to_nat low) array ++ lo ++ pivot :: hi
              ++ drop (Z.to_nat (high + 1)) array,
            low + Py.len lo)
    ∧ Forall (λ a, a ≤ pivot) lo
    ∧ Forall (λ a, pivot < a) hi
    ∧ lo ++ hi ≡ₚ segment array low (high - 1).
Proof.
  intros H0 Hlh Hpivot. apply lookup_lt_Some in Hpivot as Hlt.
  set (pre := take (Z.to_nat low) array).
  set (seg := segment array low (high - 1)).
  set (post := drop (Z.to_nat (high + 1)) array).
  assert (array = pre ++ seg ++ pivot :: post) as Harray.
  { rewrite (segment_split array (Z.to_nat low) (Z.to_nat (high - low))) at 1.
    unfold pre, seg, segment, post. f_equal.
    replace (Z.to_nat (high - 1 + 1 - low)) with (Z.to_nat (high - low)) by lia.
    f_equal. replace (Z.to_nat low + Z.to_nat (high - low))%nat with (Z.to_nat high) by lia.
    replace (Z.to_nat (high + 1)) with (S (Z.to_nat high)) by lia.
    by apply drop_S. }
  assert (Py.len pre = low) as Hpre by (apply len_take; unfold Py.len; lia).
  assert (Py.len seg = high - low) as Hseg.
  { unfold seg. rewrite len_segment; unfold Py.len; lia. }
  destruct (partition_run pre seg post pivot low high) as (lo & hi & Hrun & Hlo & Hhi & Hperm);
    [lia..|].
  exists lo, hi. rewrite Harray at 1. rewrite Hrun, Hpre. done.
Qed.

Lemma partition_splits_segment_witness :
  0 ≤ 1 ∧ 1 ≤ 4
  ∧ [9; 7; 1; 8; 5; 0] !! Z.to_nat 4 = Some 5
  ∧ partition [9; 7; 1; 8; 5; 0] 1 4 = Some ([9; 1; 5; 8; 7; 0], 2)
  ∧ ∃ lo hi,
      partition [9; 7; 1; 8; 5; 0] 1 4
      = Some (take (Z.to_nat 1) [9; 7; 1; 8; 5; 0] ++ lo ++ 5 :: hi
                ++ drop (Z.to_nat (4 + 1)) [9; 7; 1; 8; 5; 0],
              1 + Py.len lo)
      ∧ Forall (λ a, a ≤ 5) lo
      ∧ Forall (λ a, 5 < a) hi
      ∧ lo ++ hi ≡ₚ segment [9; 7; 1; 8; 5; 0] 1 (4 - 1).
Proof.
  split; [lia|]. split; [lia|]. split; [reflexivity|]. split; [reflexivity|].
  apply (partition_splits_segment [9; 7; 1; 8; 5; 0] 1 4 5); [lia | lia | reflexivity].
Defined.



(** X11. [quick_sort(array, low, high)] with [low < high] and [high] at or
    past the end of the array raises [IndexError]: the first thing
    [partition] does is read [array[high]].  Calling it with
    [high = len(array)] instead of [len(array) - 1] fails in this way on
    every array of at least two elements.  (With fewer than the two stack
    frames that [quick_sort] and [partition] take, the call raises
    [RecursionError] before the subscript is reached.) *)
Theorem quick_sort_high_out_of_range (depth : nat) (array : list Z) (low high : Z) :
  low < high → Py.len array ≤ high →
  quick_sort depth array low high
  = Raises (if decide (depth < 2)%nat then RecursionError else IndexError).
Proof.
  intros Hlt Hhigh. destruct depth as [|[|depth]]; [done| |].
  - rewrite quick_sort_body, decide_True by done. done.
  - rewrite quick_sort_body, decide_True by done.
    rewrite decide_False by lia. cbn [call].
    unfold partition, Py.getitem, Py.index.
    pose proof (len_nonneg array).
    rewrite decide_False by lia. rewrite decide_False by lia. done.
Qed.

Lemma quick_sort_high_out_of_range_witness :
  0 < Py.len [3; 1; 2] ∧ Py.len [3; 1; 2] ≤ Py.len [3; 1; 2]
  ∧ quick_sort 999 [3; 1; 2] 0 (Py.len [3; 1; 2]) = Raises IndexError.
Proof.
  split; [vm_compute; reflexivity|]. split; [vm_compute; discriminate|].
  apply (quick_sort_high_out_of_range 999 [3; 1; 2] 0 (Py.len [3; 1; 2]));
    [vm_compute; reflexivity | vm_compute; discriminate].
Defined.

(** Either sort, as a function of the array, with a frame for [sort], one
    more for [quick_sort], and fewer elements than frames. *)
Lemma sort_result (depth : nat) (s : SortingStrategy) (array : list Z) :
  s ≠ BaseStrategy →
  (1 < depth)%nat →
  (length array < depth)%nat →
  ∃ sorted, snd (SortingStrategy_sort depth s array) = Returns sorted
            ∧ StronglySorted Z.le sorted ∧ sorted ≡ₚ array.
Proof.
  intros Hs Hdepth Hlen. destruct s; [done| |]; simpl.
  - destruct (BubbleSort_sort_run depth array) as (b & Hb & ?); [lia|].
    exists b. by rewrite Hb.
  - destruct depth as [|depth']; [lia|]. simpl. apply quick_sort_correct; lia.
Qed.



End SortingContext.

(** ** KananGadhia.py: the weather station and its displays *)

Module Weather.

(** [l.remove(x)]: drops the first element equal to [x]; [None] stands
    for the [ValueError] raised when there is none. *)
Fixpoint list_remove {A} `{EqDecision A} (x : A) (l : list A) : option (list A) :=
  match l with
  | [] => None
  | y :: l' => if decide (y = x) then Some l' else cons y <$> list_remove x l'
  end.

(** An observer object: its class and its identity.  The classes define
    no [__eq__], so two observers are equal exactly when they are the same
    object. *)
Inductive WeatherObserver :=
| BaseObserver (id : nat)
| PhoneDisplay (id : nat)
| TVDisplay (id : nat).

#[global] Instance WeatherObserver_eq_dec : EqDecision WeatherObserver.
Proof. solve_decision. Defined.

Section Station.

(** The values used as temperatures (the demo uses floats) and the text
    an f-string renders them as. *)
Context {Temperature : Type} (initial : Temperature) (str : Temperature → string).

(** [observer.update(temperature)]: the lines it prints. *)
Definition WeatherObserver_update (observer : WeatherObserver) (temperature : Temperature)
  : list string :=
  match observer with
  | BaseObserver _ => []
  | PhoneDisplay _ => ["Phone display shows temperature: " +:+ str temperature +:+ "°C"]
  | TVDisplay _ => ["TV display shows temperature: " +:+ str temperature +:+ "°C"]
  end.

Record WeatherStation := mkWeatherStation {
  observers : list WeatherObserver;
  temperature : Temperature
}.

(** [WeatherStation()], with [initial] for the float [0.0]. *)
Definition WeatherStation_new : WeatherStation := mkWeatherStation [] initial.

Definition add_observer (self : WeatherStation) (observer : WeatherObserver)
  : WeatherStation :=
  mkWeatherStation (observers self ++ [observer]) (temperature self).

Definition remove_observer (self : WeatherStation) (observer : WeatherObserver)
  : option WeatherStation :=
  l ← list_remove observer (observers self);
  Some (mkWeatherStation l (temperature self)).

(** [for observer in xs: observer.update(temperature)]: what is printed. *)
Fixpoint notify_each (xs : list WeatherObserver) (temperature : Temperature)
  : list string :=
  match xs with
  | [] => []
  | observer :: xs' =>
      WeatherObserver_update observer temperature ++ notify_each xs' temperature
  end.

Definition notify_observers (self : WeatherStation) : list string :=
  notify_each (observers self) (temperature self).

(** [set_temperature(t)]: the station afterwards and what is printed. *)
Definition set_temperature (self : WeatherStation) (t : Temperature)
  : WeatherStation * list string :=
  let self' := mkWeatherStation (observers self) t in
  (self', notify_observers self').

(** *** Registration *)

Lemma list_remove_None {A} `{EqDecision A} (x : A) (l : list A) :
  list_remove x l = None ↔ x ∉ l.
Proof.
  induction l as [|y l IH]; simpl.
  - split; [intros _; apply not_elem_of_nil | done].
  - rewrite not_elem_of_cons. destruct (decide (y = x)) as [->|Hne].
    + split; [done | by intros [? _]].
    + destruct (list_remove x l); simpl.
      * split; [done|]. intros [_ Hx]. by apply IH in Hx.
      * split; [|done]. intros _. split; [done|]. by apply IH.
Qed.

Lemma list_remove_Some {A} `{EqDecision A} (x : A) (l k : list A) :
  list_remove x l = Some k ↔ ∃ l1 l2, l = l1 ++ x :: l2 ∧ (x ∉ l1) ∧ k = l1 ++ l2.
Proof.
  revert k. induction l as [|y l IH]; intros k; simpl.
  - split; [done|]. intros (l1 & l2 & Hl & _). by destruct l1.
  - destruct (decide (y = x)) as [->|Hne].
    + split.
      * intros [= <-]. exists [], l. split; [done|]. split; [apply not_elem_of_nil|done].
      * intros (l1 & l2 & Hl & Hnot & ->). destruct l1 as [|z l1]; simpl in *.
        -- by injection Hl as ->.
        -- injection Hl as -> _. exfalso. apply Hnot. by left.
    + destruct (list_remove x l) as [k'|] eqn:Hrem; simpl.
      * split.
        -- intros [= <-]. destruct (proj1 (IH k') eq_refl) as (l1 & l2 & -> & Hnot & ->).
           exists (y :: l1), l2. split; [done|]. split; [|done].
           rewrite not_elem_of_cons. done.
        -- intros (l1 & l2 & Hl & Hnot & ->). destruct l1 as [|z l1]; simpl in *.
           ++ by injection Hl as ->.
           ++ injection Hl as -> ->. f_equal. f_equal.
              assert (Some k' = Some (l1 ++ l2)) as [= ->]; [|done].
              apply IH. exists l1, l2. split; [done|]. split; [|done].
              intros Hin. apply Hnot. by right.
      * split; [done|]. intros (l1 & l2 & Hl & Hnot & ->).
        destruct l1 as [|z l1]; simpl in *.
        -- by injection Hl as ->.
        -- injection Hl as -> ->. exfalso.
           assert (None = Some (l1 ++ l2)) as Hbad; [|done].
           apply IH. exists l1, l2. split; [done|]. split; [|done].
           intros Hin. apply Hnot. by right.
Qed.

Lemma notify_each_app xs ys t :
  notify_each (xs ++ ys) t = notify_each xs t ++ notify_each ys t.
Proof. induction xs as [|x xs IH]; simpl; [done|]. by rewrite IH, app_assoc. Qed.

(** X13. [remove_observer] raises [ValueError] exactly when the observer
    is not registered with the station.  Otherwise it removes the earliest
    registration of that observer and nothing else: the observers before
    and after it keep their order, the temperature is unchanged, and a
    later registration of the same observer stays. *)
Theorem remove_observer_first_registration (self : WeatherStation)
    (observer : WeatherObserver) :
  (remove_observer self observer = None ↔ observer ∉ observers self)
  ∧ ∀ self', remove_observer self observer = Some self' ↔
      ∃ before after,
        observers self = before ++ observer :: after
        ∧ (observer ∉ before)
        ∧ self' = mkWeatherStation (before ++ after) (temperature self).
Proof.
  unfold remove_observer. split.
  - rewrite <- list_remove_None. by destruct (list_remove _ _).
  - intros self'. split.
    + destruct (list_remove observer (observers self)) as [k|] eqn:Hrem; [|done].
      intros [= <-]. apply list_remove_Some in Hrem as (l1 & l2 & Hl & Hnot & ->). eauto.
    + intros (l1 & l2 & Hl & Hnot & ->).
      assert (list_remove observer (observers self) = Some (l1 ++ l2)) as ->; [|done].
      apply list_remove_Some. eauto.
Qed.

(** X14. Registering an observer and then removing it gives back the
    station as it was when the observer was not registered before.  When
    it was, the station does not come back: it is the earlier
    registration that goes, so the observer ends last in the list; the
    registrations are the same up to their order. *)
Theorem add_then_remove_observer (self : WeatherStation) (observer : WeatherObserver) :
  ∃ self',
    remove_observer (add_observer self observer) observer = Some self'
    ∧ temperature self' = temperature self
    ∧ observers self' ≡ₚ observers self
    ∧ (observer ∉ observers self → self' = self)
    ∧ (observer ∈ observers self → last (observers self') = Some observer).
Proof.
  unfold remove_observer, add_observer. simpl.
  destruct (decide (observer ∈ observers self)) as [Hin|Hnot].
  - destruct (list_remove observer (observers self)) as [k|] eqn:Hrem.
    2:{ by apply list_remove_None in Hrem. }
    apply list_remove_Some in Hrem as (l1 & l2 & Hl & Hnot1 & ->).
    assert (list_remove observer (observers self ++ [observer])
            = Some (l1 ++ l2 ++ [observer])) as ->.
    { apply list_remove_Some. exists l1, (l2 ++ [observer]).
      split; [by rewrite Hl, <- app_assoc|done]. }
    eexists. split; [done|]. simpl. split; [done|]. split; [|split; [done|]].
    + rewrite Hl. apply Permutation_app_head. symmetry. apply Permutation_cons_append.
    + intros _. by rewrite app_assoc, last_snoc.
  - assert (list_remove observer (observers self ++ [observer])
            = Some (observers self)) as ->.
    { apply list_remove_Some. exists (observers self), [].
      split; [done|]. split; [done|]. by rewrite (app_nil_r (observers self)). }
    eexists. split; [done|]. simpl.
    split; [done|]. split; [done|]. split; [|done]. intros _. by destruct self.
Qed.

(** *** Notification *)

(** X15. [set_temperature(t)] stores [t] and notifies with [t], the new
    value, every registration in registration order, keeping the list of
    observers.  So an observer registered once more adds its lines once
    more at the end of what is printed, even if it was registered already;
    and removing an observer takes out of what is printed the lines of
    one registration of it, the earliest, and nothing else. *)
Theorem set_temperature_notifies_registrations (self : WeatherStation)
    (observer : WeatherObserver) (t : Temperature) :
  fst (set_temperature self t) = mkWeatherStation (observers self) t
  ∧ snd (set_temperature (add_observer self observer) t)
    = snd (set_temperature self t) ++ WeatherObserver_update observer t
  ∧ ∀ self', remove_observer self observer = Some self' →
      ∃ before after,
        observers self = before ++ observer :: after
        ∧ (observer ∉ before)
        ∧ snd (set_temperature self t)
          = notify_each before t ++ WeatherObserver_update observer t
              ++ notify_each after t
        ∧ snd (set_temperature self' t) = notify_each before t ++ notify_each after t.
Proof.
  split; [done|]. split.
  - unfold set_temperature, notify_observers, add_observer. simpl.
    rewrite notify_each_app. simpl. by rewrite app_nil_r.
  - intros self' Hrem. unfold remove_observer in Hrem.
    destruct (list_remove observer (observers self)) as [k|] eqn:Hk; [|done].
    injection Hrem as <-.
    apply list_remove_Some in Hk as (l1 & l2 & Hl & Hnot & ->).
    exists l1, l2. split; [done|]. split; [done|].
    unfold set_temperature, notify_observers. simpl.
    rewrite Hl, !notify_each_app. done.
Qed.

End Station.

(** The station of the demo: a phone display and a TV display registered
    in this order.  Floats are not computed with, only stored and printed:
    a temperature stands here as the text an f-string renders it with
    ([0.0] as ["0.0"], [25.5] as ["25.5"]). *)
Definition phone_display : WeatherObserver := PhoneDisplay 0.
Definition tv_display : WeatherObserver := TVDisplay 1.
Definition float_str (text : string) : string := text.
Definition demo_station : WeatherStation :=
  add_observer (add_observer (WeatherStation_new "0.0"%string) phone_display) tv_display.

Example demo_station_notifies :
  snd (set_temperature float_str demo_station "25.5")
  = [ "Phone display shows temperature: 25.5°C";
      "TV display shows temperature: 25.5°C" ].
Proof. reflexivity. Qed.

Lemma remove_observer_first_registration_witness :
  remove_observer demo_station (TVDisplay 7) = None
  ∧ remove_observer (add_observer demo_station phone_display) phone_display
    = Some (mkWeatherStation ([] ++ [tv_display; phone_display]) "0.0"%string).
Proof.
  split.
  - apply (remove_observer_first_registration demo_station (TVDisplay 7)).
    vm_compute. intros H. repeat (inversion H as [|? ? ? H']; subst; clear H; rename H' into H).
  - apply (remove_observer_first_registration
             (add_observer demo_station phone_display) phone_display).
    exists [], [tv_display; phone_display].
    split; [reflexivity|]. split; [apply not_elem_of_nil | reflexivity].
Defined.

Lemma set_temperature_notifies_registrations_witness :
  remove_observer demo_station phone_display
  = Some (mkWeatherStation [tv_display] "0.0"%string)
  ∧ ∃ before after,
      observers demo_station = before ++ phone_display :: after
      ∧ snd (set_temperature float_str (mkWeatherStation [tv_display] "0.0"%string)
               "25.5"%string)
        = notify_each float_str before "25.5" ++ notify_each float_str after "25.5".
Proof.
  assert (remove_observer demo_station phone_display
          = Some (mkWeatherStation [tv_display] "0.0"%string)) as Hrem by reflexivity.
  split; [exact Hrem|].
  destruct (set_temperature_notifies_registrations float_str demo_station phone_display
              "25.5"%string)
    as (_ & _ & Hremoved).
  destruct (Hremoved _ Hrem) as (before & after & Hsplit & _ & _ & Hout).
  by exists before, after.
Defined.

End Weather.

(** ** KananGadhia.py: the database connection (singleton) *)

Module Database.

(** What the class and the console hold: the class attribute
    [DatabaseConnection._instance], the number of connection objects
    created so far (an object is identified by its rank of creation) and
    the lines printed. *)
Record World := mkWorld {
  _instance : option nat;
  created : nat;
  stdout : list string
}.

Definition initial_world : World := mkWorld None 0 [].

(** [DatabaseConnection()]: the object returned and the state afterwards. *)
Definition DatabaseConnection_new (w : World) : nat * World :=
  match _instance w with
  | None =>
      let self := created w in
      (self, mkWorld (Some self) (S (created w))
                     (stdout w ++ ["Establishing Database Connection..."]))
  | Some self => (self, w)
  end.

Definition execute_query (self : nat) (query : string) (w : World) : World :=
  mkWorld (_instance w) (created w) (stdout w ++ ["Executing Query: " +:+ query]).

(** What a client does with the class. *)
Inductive Call :=
| CallDatabaseConnection
| CallExecuteQuery (self : nat) (query : string).

Definition perform (c : Call) (w : World) : World :=
  match c with
  | CallDatabaseConnection => snd (DatabaseConnection_new w)
  | CallExecuteQuery self query => execute_query self query w
  end.

(** [for c in calls: perform(c)] *)
Definition perform_all (calls : list Call) (w : World) : World :=
  foldl (λ w c, perform c w) w calls.

(** The lines the queries among [calls] print. *)
Definition query_lines (calls : list Call) : list string :=
  c ← calls;
  match c with
  | CallDatabaseConnection => []
  | CallExecuteQuery _ query => ["Executing Query: " +:+ query]
  end.

Lemma perform_all_established (calls : list Call) : ∀ w self,
  _instance w = Some self →
  _instance (perform_all calls w) = Some self
  ∧ created (perform_all calls w) = created w
  ∧ stdout (perform_all calls w) = stdout w ++ query_lines calls.
Proof.
  induction calls as [|c calls IH]; intros w self Hinst; simpl.
  - by rewrite app_nil_r.
  - destruct c as [|self' query]; simpl.
    + unfold DatabaseConnection_new. rewrite Hinst. simpl. by apply IH.
    + destruct (IH (execute_query self' query w) self Hinst) as (Hi & Hc & Ho).
      split; [done|]. split; [done|]. rewrite Ho. simpl. by rewrite <- app_assoc.
Qed.

(** X16. After the first [DatabaseConnection()] of a process, whatever
    constructions and queries follow: exactly one connection object has
    been created, every construction returns it, and the output is the
    line that the connection is being established, once and first,
    followed by one line per query, in order. *)
Theorem connection_established_once (calls : list Call) :
  let '(self, w1) := DatabaseConnection_new initial_world in
  let w := perform_all calls w1 in
  created w = 1%nat
  ∧ DatabaseConnection_new w = (self, w)
  ∧ stdout w = "Establishing Database Connection..." :: query_lines calls.
Proof.
  simpl.
  destruct (perform_all_established calls
              (mkWorld (Some 0%nat) 1 ["Establishing Database Connection..."]) 0%nat eq_refl)
    as (Hi & Hc & Ho).
  split; [done|]. split; [|done].
  unfold DatabaseConnection_new. by rewrite Hi.
Qed.

End Database.

(** ** KananGadhia.py: the shape factory *)

Module Factory.

(** A Python string as the list of its code points. *)
Definition codes (s : string) : list N :=
  Ascii.N_of_ascii <$> String.list_ascii_of_string s.

(** The two shapes the factory builds. *)
Inductive Shape := Circle | Square.

(** [shape.draw()]: the line printed. *)
Definition Shape_draw (shape : Shape) : string :=
  match shape with
  | Circle => "Drawing a Circle"
  | Square => "Drawing a Square"
  end.

Section Upper.

(** The uppercase mapping of the code points from 128 on, as the Unicode
    tables of the interpreter give it (a code point may map to several). *)
Variable upper_table : N → list N.

(** What [str.upper()] makes of one code point: the letters [a]..[z]
    become [A]..[Z], the other ASCII characters stay. *)
Definition upper_char (c : N) : list N :=
  if (97 <=? c)%N && (c <=? 122)%N then [(c - 32)%N]
  else if (c <? 128)%N then [c]
  else upper_table c.

(** [s.upper()] *)
Definition str_upper (s : list N) : list N := c ← s; upper_char c.

(** [get_shape(shape_type)], for [shape_type] a string or [None]; the
    result [None] is Python's [None]. *)
Definition get_shape (shape_type : option (list N)) : option Shape :=
  match shape_type with
  | None => None
  | Some s =>
      if decide (str_upper s = codes "CIRCLE") then Some Circle
      else if decide (str_upper s = codes "SQUARE") then Some Square
      else None
  end.

(** [c] is the capital letter [u] or its small letter. *)
Definition same_letter (c u : N) : Prop := c = u ∨ c = (u + 32)%N.

Lemma upper_char_ascii (c : N) :
  (c < 128)%N →
  upper_char c = [if (97 <=? c)%N && (c <=? 122)%N then (c - 32)%N else c].
Proof.
  intros Hc. unfold upper_char. destruct (_ && _); [done|].
  by replace (c <? 128)%N with true by (symmetry; apply N.ltb_lt; lia).
Qed.

Lemma upper_char_letter (c u : N) :
  (c < 128)%N → (65 ≤ u ≤ 90)%N →
  upper_char c = [u] ↔ same_letter c u.
Proof.
  intros Hc Hu. rewrite upper_char_ascii by done. unfold same_letter.
  destruct (97 <=? c)%N eqn:H1; [destruct (c <=? 122)%N eqn:H2|]; simpl.
  - apply N.leb_le in H1. apply N.leb_le in H2.
    split; [intros [= <-]; right; lia | intros [->| ->]; [lia | f_equal; lia]].
  - apply N.leb_le in H1. apply N.leb_gt in H2.
    split; [intros [= <-]; by left | intros [->| ->]; [done | lia]].
  - apply N.leb_gt in H1.
    split; [intros [= <-]; by left | intros [->| ->]; [done | lia]].
Qed.

Lemma str_upper_letters (s t : list N) :
  Forall (λ c, (c < 128)%N) s → Forall (λ u, (65 ≤ u ≤ 90)%N) t →
  str_upper s = t ↔ Forall2 same_letter s t.
Proof.
  intros Hs. revert t. induction Hs as [|c s Hc Hs IH]; intros t Ht.
  - split; [intros <-; constructor | by intros ->%Forall2_nil_inv_l].
  - unfold str_upper. simpl. fold (str_upper s).
    rewrite upper_char_ascii by done. simpl.
    destruct Ht as [|u t Hu Ht].
    + split; [done | intros H; inversion H].
    + split.
      * intros [= Hcu Hst]. constructor; [|by apply IH].
        apply upper_char_letter; [done..|]. rewrite upper_char_ascii by done.
        by rewrite Hcu.
      * intros H. inversion H as [|? ? ? ? Hsame Hrest]; subst.
        apply upper_char_letter in Hsame; [|done..].
        rewrite upper_char_ascii in Hsame by done.
        injection Hsame as ->. f_equal. by apply IH.
Qed.

(** X17. For a name made of ASCII characters, [get_shape] pays no
    attention to the case of the letters: it returns a circle exactly for
    the names that spell CIRCLE in capitals or small letters, however
    mixed, a square exactly for those that spell SQUARE, and [None] for
    every other name.  This holds whatever the interpreter's mapping of
    the characters outside ASCII. *)
Theorem get_shape_ignores_case (s : list N) :
  Forall (λ c, (c < 128)%N) s →
  (get_shape (Some s) = Some Circle ↔ Forall2 same_letter s (codes "CIRCLE"))
  ∧ (get_shape (Some s) = Some Square ↔ Forall2 same_letter s (codes "SQUARE"))
  ∧ (get_shape (Some s) = None ↔
       ¬ Forall2 same_letter s (codes "CIRCLE")
       ∧ ¬ Forall2 same_letter s (codes "SQUARE")).
Proof.
  intros Hs.
  assert (Forall (λ u, (65 ≤ u ≤ 90)%N) (codes "CIRCLE")) as Hc
    by (vm_compute; repeat constructor; discriminate).
  assert (Forall (λ u, (65 ≤ u ≤ 90)%N) (codes "SQUARE")) as Hq
    by (vm_compute; repeat constructor; discriminate).
  pose proof (str_upper_letters s _ Hs Hc) as Hcircle.
  pose proof (str_upper_letters s _ Hs Hq) as Hsquare.
  assert (¬ (Forall2 same_letter s (codes "CIRCLE")
             ∧ Forall2 same_letter s (codes "SQUARE"))) as Hboth.
  { intros [H1%Hcircle H2%Hsquare]. rewrite H1 in H2. vm_compute in H2. discriminate. }
  unfold get_shape.
  destruct (decide (str_upper s = codes "CIRCLE")) as [He|Hne].
  - apply Hcircle in He as Hf. split; [done|]. split.
    + split; [done|]. intros Hf2. exfalso. by apply Hboth.
    + split; [done|]. by intros [? _].
  - destruct (decide (str_upper s = codes "SQUARE")) as [He2|Hne2].
    + apply Hsquare in He2 as Hf. split.
      * split; [done|]. intros Hf1. exfalso. by apply Hne, Hcircle.
      * split; [done|]. split; [done|]. by intros [_ ?].
    + split; [|split].
      * split; [done|]. intros Hf1. exfalso. by apply Hne, Hcircle.
      * split; [done|]. intros Hf2. exfalso. by apply Hne2, Hsquare.
      * split; [|done]. intros _. split; [by rewrite <- Hcircle | by rewrite <- Hsquare].
Qed.

End Upper.

Lemma get_shape_ignores_case_witness :
  Forall (λ c, (c < 128)%N) (codes "cIrClE")
  ∧ Forall2 same_letter (codes "cIrClE") (codes "CIRCLE")
  ∧ get_shape (λ _, []) (Some (codes "cIrClE")) = Some Circle.
Proof.
  assert (Forall (λ c, (c < 128)%N) (codes "cIrClE")) as Hascii
    by (vm_compute; repeat constructor).
  assert (Forall2 same_letter (codes "cIrClE") (codes "CIRCLE")) as Hsame
    by (vm_compute; repeat constructor; (by left) || (by right)).
  split; [exact Hascii|]. split; [exact Hsame|].
  by apply (get_shape_ignores_case (λ _, []) (codes "cIrClE") Hascii).
Defined.

End Factory.

(** ** KananGadhia.py: the coffee decorators (descriptions) *)

Module Decorator.

(** The coffee classes: the interface [Coffee], whose methods return
    [None]; the basic coffee; the transparent [CoffeeDecorator] and its two
    subclasses, each wrapping a coffee. *)
Inductive Coffee :=
| BaseCoffee
| BasicCoffee
| CoffeeDecorator (coffee : Coffee)
| MilkDecorator (coffee : Coffee)
| SugarDecorator (coffee : Coffee).

(** What [get_description] can return: [None] or a string. *)
Inductive value := PyNone | PyStr (s : string).

(** [v + s] for a string [s]: concatenation on a string, [TypeError] on
    [None]. *)
Definition add_str (v : value) (s : string) : result value :=
  match v with
  | PyStr s0 => Returns (PyStr (s0 +:+ s))
  | PyNone => Raises TypeError
  end.

(** [self.get_description()], called with [depth] stack frames free: a
    decorator calls the method of the coffee it wraps from inside its
    own. *)
Fixpoint get_description (depth : nat) (self : Coffee) : result value :=
  match depth with
  | O => Raises RecursionError
  | S depth' =>
      match self with
      | BaseCoffee => Returns PyNone
      | BasicCoffee => Returns (PyStr "Basic Coffee")
      | CoffeeDecorator coffee => get_description depth' coffee
      | MilkDecorator coffee => v ← get_description depth' coffee; add_str v ", Milk"
      | SugarDecorator coffee => v ← get_description depth' coffee; add_str v ", Sugar"
      end
  end.

(** The decorator classes, to speak of a sequence of decorations. *)
Inductive Wrapper := Plain | Milk | Sugar.

#[global] Instance Wrapper_eq_dec : EqDecision Wrapper.
Proof. solve_decision. Defined.

Definition wrap (w : Wrapper) (coffee : Coffee) : Coffee :=
  match w with
  | Plain => CoffeeDecorator coffee
  | Milk => MilkDecorator coffee
  | Sugar => SugarDecorator coffee
  end.

(** [coffee] decorated by [ws], the first of the list first. *)
Definition wrap_all (ws : list Wrapper) (coffee : Coffee) : Coffee :=
  foldl (λ c w, wrap w c) coffee ws.

(** What a decorator adds to the description. *)
Definition addition (w : Wrapper) : string :=
  match w with
  | Plain => ""
  | Milk => ", Milk"
  | Sugar => ", Sugar"
  end.

Definition additions (ws : list Wrapper) : string :=
  foldr (λ w s, addition w +:+ s) "" ws.

Lemma append_assoc (a b c : string) : (a +:+ b) +:+ c = a +:+ (b +:+ c).
Proof.
  induction a as [|x a IH]; [done|].
  change (String x ((a +:+ b) +:+ c) = String x (a +:+ b +:+ c)). by f_equal.
Qed.

Lemma append_empty_r (a : string) : a +:+ "" = a.
Proof.
  induction a as [|x a IH]; [done|].
  change (String x (a +:+ "") = String x a). by f_equal.
Qed.

Lemma additions_snoc (ws : list Wrapper) (w : Wrapper) :
  additions (ws ++ [w]) = additions ws +:+ addition w.
Proof.
  induction ws as [|w0 ws IH].
  - change (addition w +:+ "" = addition w). apply append_empty_r.
  - change (addition w0 +:+ additions (ws ++ [w])
            = (addition w0 +:+ additions ws) +:+ addition w).
    by rewrite IH, append_assoc.
Qed.

Lemma wrap_all_snoc (ws : list Wrapper) (w : Wrapper) (coffee : Coffee) :
  wrap_all (ws ++ [w]) coffee = wrap w (wrap_all ws coffee).
Proof. unfold wrap_all. by rewrite foldl_app. Qed.

(** The description of a decorated coffee whose own description is the
    string [d]: one frame for the coffee and one for each decorator. *)
Lemma wrap_all_description (coffee : Coffee) (d : string) (ws : list Wrapper) :
  (∀ depth, get_description (S depth) coffee = Returns (PyStr d)) →
  ∀ depth,
    get_description depth (wrap_all ws coffee)
    = if decide (length ws < depth)%nat
      then Returns (PyStr (d +:+ additions ws))
      else Raises RecursionError.
Proof.
  intros Hd. induction ws as [|w ws IH] using rev_ind; intros depth.
  - destruct depth as [|depth]; [done|].
    change (wrap_all [] coffee) with coffee.
    rewrite Hd, decide_True by (simpl; lia). by rewrite append_empty_r.
  - rewrite wrap_all_snoc, additions_snoc, length_app.
    destruct depth as [|depth]; [done|].
    destruct w; simpl; rewrite IH; destruct (decide (length ws < depth)%nat).
    all: first [rewrite decide_True by lia | rewrite decide_False by lia]; simpl.
    all: by rewrite ?append_empty_r, ?append_assoc.
Qed.

(** X18. The description of a basic coffee under a sequence of decorators
    is ["Basic Coffee"] followed by what each decorator adds, in the order
    in which the decorators were applied; the plain [CoffeeDecorator] adds
    nothing.  [get_description] returns it when the call has more stack
    frames free than there are decorators (each decorator's method calls
    the method of the coffee it wraps) and raises [RecursionError]
    otherwise.  Over the interface class [Coffee] itself, whose description
    is [None], the plain decorators pass [None] on and the first milk or
    sugar decorator raises [TypeError], as does every description above
    it, again when the stack is deep enough for the calls. *)
Theorem description_lists_additions (depth : nat) (ws : list Wrapper) :
  get_description depth (wrap_all ws BasicCoffee)
  = (if decide (length ws < depth)%nat
     then Returns (PyStr ("Basic Coffee" +:+ additions ws))
     else Raises RecursionError)
  ∧ get_description depth (wrap_all ws BaseCoffee)
    = (if decide (length ws < depth)%nat
       then if decide (Forall (λ w, w = Plain) ws) then Returns PyNone
            else Raises TypeError
       else Raises RecursionError).
Proof.
  split; [by apply wrap_all_description|].
  revert depth. induction ws as [|w ws IH] using rev_ind; intros depth.
  - destruct depth as [|depth]; [done|].
    destruct (decide (length (@nil Wrapper) < S depth)%nat) as [_|Hn];
      [|simpl in Hn; lia].
    by rewrite decide_True by constructor.
  - rewrite wrap_all_snoc, length_app.
    destruct depth as [|depth]; [done|].
    assert (get_description (S depth) (wrap w (wrap_all ws BaseCoffee))
            = v ← get_description depth (wrap_all ws BaseCoffee);
              if decide (w = Plain) then Returns v else add_str v (addition w)) as ->.
    { destruct w; [|done..]. simpl.
      by destruct (get_description depth (wrap_all ws BaseCoffee)). }
    rewrite IH.
    destruct (decide (length ws < depth)%nat) as [Hdeep|Hshallow];
      destruct (decide (length ws + length [w] < S depth)%nat) as [Hdeep'|Hshallow'];
      try (simpl in *; lia); [|done].
    destruct (decide (Forall (λ w, w = Plain) ws)) as [Hall|Hnot]; simpl.
    + destruct (decide (w = Plain)) as [->|Hw].
      * rewrite decide_True; [done|]. apply Forall_app. split; [done|]. by constructor.
      * rewrite decide_False; [done|].
        intros [_ Hlast%Forall_cons_1]%Forall_app. by destruct Hlast.
    + rewrite decide_False; [done|]. by intros [? _]%Forall_app.
Qed.

(** The coffee of the demo, at the top level of the script. *)
Example demo_coffee_description :
  get_description 999 (SugarDecorator (MilkDecorator BasicCoffee))
  = Returns (PyStr "Basic Coffee, Milk, Sugar").
Proof. reflexivity. Qed.

End Decorator.
